(** * wcag-contrast-palette: the colour-scale pipeline

    A shallow embedding of [src/generateColorScale.ts],
    [src/utils/reverseWcagContrast.ts] and [src/utils/colorConversions.ts].

    Numbers.  A TypeScript [number] is modelled by the real number it stands
    for: [Math.exp] is [exp], [Math.sqrt] is [sqrt] (they agree on the
    non-negative numbers, where the pipeline uses it), [Math.cbrt] is the
    real cube root, [Math.pow(x, 2)] is [x ^ 2], [Math.max]/[Math.min] are
    [Rmax]/[Rmin], and the arithmetic operators are the field operations of
    [R].  Rounding of binary64 and the special values NaN and the infinities
    are outside this model.  Where a statement about a computed value would
    hold in exact arithmetic only, it is stated up to [roundingTolerance],
    and the module [Binary64] evaluates [computeChroma] on binary64 numbers
    to show the rounding itself.

    Exceptions.  [throw new Error(msg)] is the [Throw msg] result; a function
    that can throw returns a [result]. *)

From Stdlib Require Import Reals Lra Lia ZArith List String Ascii Bool.
From Stdlib Require PrimFloat.
Import ListNotations.

Local Open Scope R_scope.

(** ** Results of code that may throw *)

Inductive result (A : Type) : Type :=
| Ok (a : A)
| Throw (msg : string).

Arguments Ok {A} a.
Arguments Throw {A} msg.

Definition bind {A B : Type} (r : result A) (k : A -> result B) : result B :=
  match r with
  | Ok a => k a
  | Throw msg => Throw msg
  end.

Notation "x <- r ;; k" := (bind r (fun x => k))
  (at level 61, r at next level, right associativity).

(** ** Comparisons of numbers, as booleans *)

Definition num_lt (x y : R) : bool := if Rlt_dec x y then true else false.
Definition num_le (x y : R) : bool := if Rle_dec x y then true else false.
Definition num_gt (x y : R) : bool := num_lt y x.
Definition num_ge (x y : R) : bool := num_le y x.
Definition num_eq (x y : R) : bool := if Req_dec_T x y then true else false.

(** [Number.isInteger] *)
Definition Number_isInteger (x : R) : bool := num_eq x (IZR (Int_part x)).

(** ** reverseWcagContrast.ts *)

Module ContrastModel.

(** [scaleToContrast(scaleValue)] *)
Definition scaleToContrast (scaleValue : R) : R :=
  let normalizedValue := scaleValue / 1000 in
  exp (3.04 * normalizedValue).

(** [reverseWCAGContrast(contrast = 4.5, y = 1)]: [None] is the source's
    [false]. The two [console.log] calls have no effect on the result. *)
Definition reverseWCAGContrast (contrast y : R) : option R :=
  if negb (num_ge y 0 && num_le y 1) then None
  else if negb (num_ge contrast 1 && num_le contrast 21) then None
  else
    let output :=
      if num_gt y 0.18
      then (y + 0.05) / contrast - 0.05
      else contrast * (y + 0.05) - 0.05 in
    Some (Rmax 0 (Rmin 1 output)).

(** The default arguments of [reverseWCAGContrast]. *)
Definition default_contrast : R := 4.5.
Definition default_y : R := 1.

End ContrastModel.

(** ** colorConversions.ts *)

(** [Math.cbrt]: the real cube root, odd and total. *)
Definition cbrt (x : R) : R :=
  if Req_dec_T x 0 then 0
  else if Rlt_dec 0 x then Rpower x (/ 3)
  else - Rpower (- x) (/ 3).

(** An sRGB triple [[r, g, b]], an OKHSL triple [[h, s, l]]. *)
Definition triple : Type := (R * R * R)%type.

Module PerceptualLightnessMapper.

Definition k_1 : R := 0.206.
Definition k_2 : R := 0.03.
Definition k_3 : R := (1 + k_1) / (1 + k_2).

(** [toe(L)] *)
Definition toe (L : R) : R :=
  let k3L_m_k1 := k_3 * L - k_1 in
  0.5 * (k3L_m_k1 + sqrt (k3L_m_k1 * k3L_m_k1 + 4 * k_2 * k_3 * L)).

(** The matrices [M1] and [M2] of [yToOklabLightness], by rows. *)
Definition M1 : triple * triple * triple :=
  ((0.8189330101, 0.3618667424, -0.1288597137),
   (0.0329845436, 0.9293118715, 0.0361456387),
   (0.0482003018, 0.2643662691, 0.633851707)).

Definition M2 : triple * triple * triple :=
  ((0.2104542553, 0.793617785, -0.0040720468),
   (1.9779984951, -2.428592205, 0.4505937099),
   (0.0259040371, 0.7827717662, -0.808675766)).

Definition row_dot (row : triple) (X Y Z : R) : R :=
  let '(a, b, c) := row in a * X + b * Y + c * Z.

(** The cone responses [l], [m], [s] of [yToOklabLightness], after the
    three [Math.max(0, _)] assignments and before the cube roots. *)
Definition clampedLMS (inputY : R) : triple :=
  let x := 0.3127 in
  let y := 0.329 in
  let X_factor := x / y in
  let Z_factor := (1 - x - y) / y in
  let X := X_factor * inputY in
  let Y := inputY in
  let Z := Z_factor * inputY in
  let '(r0, r1, r2) := M1 in
  let l := row_dot r0 X Y Z in
  let m := row_dot r1 X Y Z in
  let s := row_dot r2 X Y Z in
  (Rmax 0 l, Rmax 0 m, Rmax 0 s).

(** [yToOklabLightness(inputY)] *)
Definition yToOklabLightness (inputY : R) : R :=
  let '(l, m, s) := clampedLMS inputY in
  let l_prime := cbrt l in
  let m_prime := cbrt m in
  let s_prime := cbrt s in
  let '(r0, _, _) := M2 in
  row_dot r0 l_prime m_prime s_prime.

(** [yToOkhslLightness(inputY)] *)
Definition yToOkhslLightness (inputY : R) : R :=
  toe (yToOklabLightness inputY).

End PerceptualLightnessMapper.

(** ** generateColorScale.ts *)

(** A [ColorScale] object: its own properties, looked up by step. *)
Definition ColorScale : Type := list (R * triple).

Fixpoint scale_get (scale : ColorScale) (step : R) : option triple :=
  match scale with
  | [] => None
  | (k, v) :: rest => if num_eq k step then Some v else scale_get rest step
  end.

(** [{ ...scale, [step]: srgb }] *)
Fixpoint scale_set (scale : ColorScale) (step : R) (srgb : triple) : ColorScale :=
  match scale with
  | [] => [(step, srgb)]
  | (k, v) :: rest =>
      if num_eq k step then (k, srgb) :: rest
      else (k, v) :: scale_set rest step srgb
  end.

Definition scale_keys (scale : ColorScale) : list R := map fst scale.

(** [Array.prototype.reduce] with a callback that may throw. *)
Fixpoint reduce {A B : Type} (f : B -> A -> result B) (l : list A) (acc : B)
  : result B :=
  match l with
  | [] => Ok acc
  | x :: l' => acc' <- f acc x ;; reduce f l' acc'
  end.

(** The optional field [enableBezoldBruckeShift?] is [None] when absent. *)
Record GenerateColorScaleOptions : Type := {
  baseHue : R;
  minChroma : R;
  maxChroma : R;
  steps : list R;
  enableBezoldBruckeShift : option bool
}.

(** The destructuring default [enableBezoldBruckeShift = true]. *)
Definition shiftEnabled (options : GenerateColorScaleOptions) : bool :=
  match options.(enableBezoldBruckeShift) with
  | Some b => b
  | None => true
  end.

Module ScaleCurveFunctions.

(** [computeHue(step, baseHue, enableBezoldBruckeShift)] *)
Definition computeHue (step baseHue : R) (enableBezoldBruckeShift : bool)
  : result R :=
  let normalizedStep := step / 1000 in
  if num_lt normalizedStep 0 || num_gt normalizedStep 1 then
    Throw "step must produce a normalized value between 0 and 1"
  else if num_lt baseHue 0 || num_gt baseHue 360 then
    Throw "baseHue must be a number between 0 and 360"
  else if num_eq baseHue 0 || negb enableBezoldBruckeShift then
    Ok baseHue
  else
    Ok (baseHue + 5 * (1 - normalizedStep)).

(** [computeChroma(step, minChroma, maxChroma)] *)
Definition computeChroma (step minChroma maxChroma : R) : result R :=
  let normalizedStep := step / 1000 in
  if num_lt normalizedStep 0 || num_gt normalizedStep 1 then
    Throw "step must produce a normalized value between 0 and 1"
  else if num_lt minChroma 0 || num_gt minChroma 1
          || num_lt maxChroma 0 || num_gt maxChroma 1 then
    Throw "Chroma values must be numbers between 0 and 1"
  else if num_gt minChroma maxChroma then
    Throw "minChroma must be less than or equal to maxChroma"
  else
    let chromaDifference := maxChroma - minChroma in
    Ok (-4 * chromaDifference * normalizedStep ^ 2
        + 4 * chromaDifference * normalizedStep
        + minChroma).

End ScaleCurveFunctions.

(** *** [computeChroma] on binary64 numbers *)

Set Warnings "-inexact-float".

Module Binary64.

Import PrimFloat.
Local Open Scope float_scope.

(** [Math.pow(x, 2)], which is [x * x]. *)
Definition Math_pow2 (x : float) : float := x * x.

(** [computeChroma(step, minChroma, maxChroma)], every operation rounded to
    binary64 as the operators of a [number] are. *)
Definition computeChroma (step minChroma maxChroma : float) : result float :=
  let normalizedStep := step / 1000 in
  if (normalizedStep <? 0) || (1 <? normalizedStep) then
    Throw "step must produce a normalized value between 0 and 1"
  else if (minChroma <? 0) || (1 <? minChroma)
          || (maxChroma <? 0) || (1 <? maxChroma) then
    Throw "Chroma values must be numbers between 0 and 1"
  else if maxChroma <? minChroma then
    Throw "minChroma must be less than or equal to maxChroma"
  else
    let chromaDifference := maxChroma - minChroma in
    Ok (-4 * chromaDifference * Math_pow2 normalizedStep
        + 4 * chromaDifference * normalizedStep
        + minChroma).

End Binary64.

Module ColorScaleGenerator.

Import ContrastModel PerceptualLightnessMapper ScaleCurveFunctions.

(** The local [targetLuminance] of [computeLightness]: the call
    [reverseWCAGContrast(wcagContrast)] leaves [y] at its default. *)
Definition targetLuminance (step : R) : option R :=
  let wcagContrast := scaleToContrast step in
  reverseWCAGContrast wcagContrast default_y.

(** [computeLightness(step)]; the message interpolates the step, which a
    string over [R] cannot print, so the model keeps its fixed part. *)
Definition computeLightness (step : R) : result R :=
  match targetLuminance step with
  | None => Throw "Problem calculating the target luminance for step"
  | Some Y => Ok (yToOkhslLightness Y)
  end.

Section Converter.

(** [new Color("okhsl", hsl).to("srgb").srgb] of colorjs.io, a library
    outside the repository: a parameter of the model. *)
Variable Color_okhsl_to_srgb : triple -> triple.

(** [okhslToSrgb(hsl)] *)
Definition okhslToSrgb (hsl : triple) : triple :=
  let '(c0, c1, c2) := Color_okhsl_to_srgb hsl in
  (c0 * 255, c1 * 255, c2 * 255).

(** The colour computed by the body of the [reduce] callback of
    [generateColorScale] for one step. *)
Definition stepColor (step baseHue minChroma maxChroma : R)
    (enableBezoldBruckeShift : bool) : result triple :=
  h <- computeHue step baseHue enableBezoldBruckeShift ;;
  s <- computeChroma step minChroma maxChroma ;;
  l <- computeLightness step ;;
  Ok (okhslToSrgb (h, s, l)).

(** [generateColorScale(options)] *)
Definition generateColorScale (options : GenerateColorScaleOptions)
  : result ColorScale :=
  let baseHue := options.(baseHue) in
  let minChroma := options.(minChroma) in
  let maxChroma := options.(maxChroma) in
  let steps := options.(steps) in
  let enableBezoldBruckeShift := shiftEnabled options in
  if num_lt baseHue 0 || num_gt baseHue 360 then
    Throw "baseHue must be a number between 0 and 360"
  else if num_lt minChroma 0 || num_gt minChroma 1
          || num_lt maxChroma 0 || num_gt maxChroma 1 then
    Throw "Chroma values must be numbers between 0 and 1"
  else if num_gt minChroma maxChroma then
    Throw "minChroma must be less than or equal to maxChroma"
  else if existsb
            (fun step =>
               num_lt step 0 || num_gt step 1000 || negb (Number_isInteger step))
            steps then
    Throw "All steps must be integers between 0 and 1000"
  else
    reduce
      (fun scale step =>
         srgb <- stepColor step baseHue minChroma maxChroma
                   enableBezoldBruckeShift ;;
         Ok (scale_set scale step srgb))
      steps [].

End Converter.

End ColorScaleGenerator.

(** ** JavaScript objects used as maps *)

Section Objects.

Context {K V : Type} (key_eq : K -> K -> bool).

(** [o[k]] *)
Fixpoint obj_get (o : list (K * V)) (k : K) : option V :=
  match o with
  | [] => None
  | (k', v) :: rest => if key_eq k' k then Some v else obj_get rest k
  end.

(** [o[k] = v] *)
Fixpoint obj_set (o : list (K * V)) (k : K) (v : V) : list (K * V) :=
  match o with
  | [] => [(k, v)]
  | (k', v') :: rest =>
      if key_eq k' k then (k', v) :: rest else (k', v') :: obj_set rest k v
  end.

End Objects.

(** [Math.round]: the nearest integer, a half rounding up. *)
Definition Math_round (x : R) : R := IZR (Int_part (x + 0.5)).

(** ** index.ts: the palette of the command line *)

Module ColorDefinition.
Record t : Type := { hue : R; minChroma : R; maxChroma : R }.
End ColorDefinition.

(** [colors] is a [Record<string, ColorDefinition>], in insertion order. *)
Module ColorConfig.
Record t : Type := {
  steps : list R;
  colors : list (string * ColorDefinition.t)
}.
End ColorConfig.

Module PaletteCli.

Import ColorScaleGenerator.

(** The [format] argument, ["hex" | "srgb"]. *)
Inductive OutputFormat : Type := hex | srgb.

(** A formatted colour, [[number, number, number] | string]. *)
Inductive FormattedColor : Type :=
| HexString (s : string)
| RgbTriple (rgb : triple).

Definition FormattedScale : Type := list (R * FormattedColor).
Definition Palette : Type := list (string * FormattedScale).

(** [defaultConfig] *)
Definition defaultConfig : ColorConfig.t :=
  let color h mn mx :=
    {| ColorDefinition.hue := h; ColorDefinition.minChroma := mn;
       ColorDefinition.maxChroma := mx |} in
  {| ColorConfig.steps :=
       [0; 20; 40; 100; 180; 280; 398; 520; 590; 700; 820; 930; 960; 990; 1000];
     ColorConfig.colors :=
       [("gray"%string, color 0 0 0);
        ("blue"%string, color 256 0.4 0.967);
        ("green"%string, color 144 0.4 0.967);
        ("red"%string, color 24 0.4 0.967);
        ("yellow"%string, color 67 0.4 0.967);
        ("purple"%string, color 290 0.4 0.967);
        ("teal"%string, color 205 0.4 0.967);
        ("orange"%string, color 38 0.4 0.967)] |}.

Section Collaborators.

(** The two conversions of colorjs.io: OKHSL to sRGB coordinates, and the
    hex string of sRGB coordinates, [c.toString({ format: "hex" })]. *)
Variable Color_okhsl_to_srgb : triple -> triple.
Variable Color_srgb_to_hex : triple -> string.

(** [srgbToHex(rgb)] of colorConversions.ts *)
Definition srgbToHex (rgb : triple) : string :=
  let '(r, g, b) := rgb in
  Color_srgb_to_hex (r / 255, g / 255, b / 255).

(** The options that [generatePalette] builds for one colour. *)
Definition optionsFor (config : ColorConfig.t) (colorDef : ColorDefinition.t)
  : GenerateColorScaleOptions :=
  {| baseHue := ColorDefinition.hue colorDef;
     minChroma := ColorDefinition.minChroma colorDef;
     maxChroma := ColorDefinition.maxChroma colorDef;
     steps := ColorConfig.steps config;
     enableBezoldBruckeShift := Some false |}.

(** One entry of the inner loop of [generatePalette]. *)
Definition formatColor (format : OutputFormat) (color : triple)
  : FormattedColor :=
  let '(r, g, b) := color in
  let roundedRgb := (Math_round r, Math_round g, Math_round b) in
  match format with
  | hex => HexString (srgbToHex roundedRgb)
  | srgb => RgbTriple roundedRgb
  end.

(** The inner loop, over [Object.entries(scale)]; the keys of a scale are
    validated integer steps, which [Number(step)] reads back unchanged. *)
Definition formatScale (format : OutputFormat) (scale : ColorScale)
  : FormattedScale :=
  fold_left
    (fun formattedScale entry =>
       let '(step, color) := entry in
       obj_set num_eq formattedScale step (formatColor format color))
    scale [].

(** [generatePalette(config, format)]; an error of [generateColorScale]
    leaves the loop. *)
Definition generatePalette (config : ColorConfig.t) (format : OutputFormat)
  : result Palette :=
  reduce
    (fun palette entry =>
       let '(colorName, colorDef) := entry in
       scale <- generateColorScale Color_okhsl_to_srgb
                  (optionsFor config colorDef) ;;
       Ok (obj_set String.eqb palette colorName (formatScale format scale)))
    (ColorConfig.colors config) [].

End Collaborators.

(** *** The argument loop of [main] *)

(** What [main] has when its loop ends. *)
Record CliState : Type := {
  config : ColorConfig.t;
  outputFile : option string;
  format : OutputFormat
}.

(** The loop either ends, or stops the process with [process.exit(code)]
    after printing [text]. *)
Inductive CliOutcome : Type :=
| Parsed (state : CliState)
| Exit (code : Z) (text : string).

Section Main.

(** [JSON.parse(fs.readFileSync(configPath, "utf-8"))], which may throw,
    and the text [HELP_TEXT]. *)
Variable readConfig : string -> result ColorConfig.t.
Variable HELP_TEXT : string.

(** [!s] on a string that is present. *)
Definition falsy (s : string) : bool := String.eqb s EmptyString.

(** The [for] loop of [main] from index [i] on, [args] being what is left
    of [process.argv]; [args[++i]] is the head of the rest, and is
    [undefined] when there is none. *)
Fixpoint parseArgs (args : list string) (state : CliState) : CliOutcome :=
  match args with
  | [] => Parsed state
  | arg :: rest =>
      if String.eqb arg "--config" || String.eqb arg "-c" then
        match rest with
        | [] => Exit 1 "Error: --config requires a file path"
        | configPath :: rest' =>
            if falsy configPath then
              Exit 1 "Error: --config requires a file path"
            else
              match readConfig configPath with
              | Throw error =>
                  Exit 1 ("Error reading config file: " ++ error)
              | Ok parsed =>
                  parseArgs rest'
                    {| config := parsed;
                       outputFile := state.(outputFile);
                       format := state.(format) |}
              end
        end
      else if String.eqb arg "--output" || String.eqb arg "-o" then
        match rest with
        | [] => Exit 1 "Error: --output requires a file path"
        | path :: rest' =>
            if falsy path then Exit 1 "Error: --output requires a file path"
            else
              parseArgs rest'
                {| config := state.(config);
                   outputFile := Some path;
                   format := state.(format) |}
        end
      else if String.eqb arg "--format" || String.eqb arg "-f" then
        match rest with
        | [] => Exit 1 "Error: --format requires a value (hex or srgb)"
        | formatArg :: rest' =>
            if falsy formatArg then
              Exit 1 "Error: --format requires a value (hex or srgb)"
            else if String.eqb formatArg "hex" then
              parseArgs rest'
                {| config := state.(config);
                   outputFile := state.(outputFile);
                   format := hex |}
            else if String.eqb formatArg "srgb" then
              parseArgs rest'
                {| config := state.(config);
                   outputFile := state.(outputFile);
                   format := srgb |}
            else Exit 1 "Error: --format must be either 'hex' or 'srgb'"
        end
      else if String.eqb arg "--help" || String.eqb arg "-h" then
        Exit 0 HELP_TEXT
      else parseArgs rest state
  end.

(** The state [main] starts its loop with. *)
Definition initialState : CliState :=
  {| config := defaultConfig; outputFile := None; format := hex |}.

End Main.

End PaletteCli.

(** ** compare-colors.js *)

Module CompareColors.

(** [toLowerCase] on one ASCII character, and on a string of them. *)
Definition toLowerCase_char (c : ascii) : ascii :=
  let n := nat_of_ascii c in
  if ((65 <=? n) && (n <=? 90))%nat then ascii_of_nat (n + 32) else c.

Fixpoint toLowerCase (s : string) : string :=
  match s with
  | EmptyString => EmptyString
  | String c rest => String (toLowerCase_char c) (toLowerCase rest)
  end.

(** [s.replace] with the pattern [#] and the empty replacement: a string
    pattern replaces its first occurrence only. *)
Fixpoint removeFirstHash (s : string) : string :=
  match s with
  | EmptyString => EmptyString
  | String c rest =>
      if Ascii.eqb c "#" then rest else String c (removeFirstHash rest)
  end.

(** [normalizeHex(hex)] *)
Definition normalizeHex (hex : string) : string :=
  let cleaned := removeFirstHash (toLowerCase hex) in
  if Nat.eqb (String.length cleaned) 3 then
    match cleaned with
    | String c0 (String c1 (String c2 _)) =>
        String c0 (String c0 (String c1 (String c1 (String c2
          (String c2 EmptyString)))))
    | _ => cleaned
    end
  else cleaned.

End CompareColors.

(** ** WCAG contrast *)

(** Modelled from the spec: the WCAG contrast ratio of two relative
    luminances, [(L1 + 0.05) / (L2 + 0.05)] with [L1] the lighter of the two.
    It is the relation that [reverseWCAGContrast] solves; the repository
    takes it from the wcag-contrast package, in its test only. *)
Definition wcagContrast (Y1 Y2 : R) : R :=
  (Rmax Y1 Y2 + 0.05) / (Rmin Y1 Y2 + 0.05).

(** ** Vocabulary of the properties *)

Section Vocabulary.

Import ContrastModel PerceptualLightnessMapper ColorScaleGenerator.

(** The clamp of the specification: the nearest point of [[lo, hi]]. *)
Definition clamp (lo hi x : R) : R :=
  if Rlt_dec x lo then lo else if Rlt_dec hi x then hi else x.

(** The Oklab lightness of the white point. *)
Definition whiteLightness : R := yToOklabLightness 1.

(** A number that [Number.isInteger] accepts. *)
Definition isIntegerNumber (x : R) : Prop := exists z : Z, x = IZR z.

(** A step that passes the check of [generateColorScale]. *)
Definition validStep (step : R) : Prop :=
  isIntegerNumber step /\ 0 <= step <= 1000.

(** The preconditions that [generateColorScale] checks. *)
Definition validOptions (options : GenerateColorScaleOptions) : Prop :=
  0 <= options.(baseHue) <= 360
  /\ 0 <= options.(minChroma)
  /\ options.(minChroma) <= options.(maxChroma)
  /\ options.(maxChroma) <= 1
  /\ Forall validStep options.(steps).

(** Their violation: a hue or a chroma out of range, chromas in the wrong
    order, or a step that is not an integer of [[0, 1000]]. *)
Definition invalidOptions (options : GenerateColorScaleOptions) : Prop :=
  options.(baseHue) < 0 \/ options.(baseHue) > 360
  \/ options.(minChroma) < 0 \/ options.(minChroma) > 1
  \/ options.(maxChroma) < 0 \/ options.(maxChroma) > 1
  \/ options.(minChroma) > options.(maxChroma)
  \/ Exists (fun step => ~ validStep step) options.(steps).

Definition stepRejected (step : R) : bool :=
  num_lt step 0 || num_gt step 1000 || negb (Number_isInteger step).

(** The colour of a valid step, in closed form. *)
Definition stepColorValue (Color_okhsl_to_srgb : triple -> triple)
    (step hue minC maxC : R) (enable : bool) : triple :=
  okhslToSrgb Color_okhsl_to_srgb
    (if num_eq hue 0 || negb enable then hue
     else hue + 5 * (1 - step / 1000),
     -4 * (maxC - minC) * (step / 1000) ^ 2
     + 4 * (maxC - minC) * (step / 1000) + minC,
     yToOkhslLightness (1.05 / scaleToContrast step - 0.05)).

(** The options [options] with another array of steps. *)
Definition withSteps (options : GenerateColorScaleOptions) (l : list R)
  : GenerateColorScaleOptions :=
  {| baseHue := options.(baseHue);
     minChroma := options.(minChroma);
     maxChroma := options.(maxChroma);
     steps := l;
     enableBezoldBruckeShift := options.(enableBezoldBruckeShift) |}.

Definition grayOptions (l : list R) : GenerateColorScaleOptions :=
  {| baseHue := 0; minChroma := 0; maxChroma := 0; steps := l;
     enableBezoldBruckeShift := None |}.

(** The messages of the four validation errors. *)
Definition msg_baseHue : string := "baseHue must be a number between 0 and 360".
Definition msg_chromaRange : string :=
  "Chroma values must be numbers between 0 and 1".
Definition msg_chromaOrder : string :=
  "minChroma must be less than or equal to maxChroma".
Definition msg_steps : string :=
  "All steps must be integers between 0 and 1000".

(** The inverse of [toe]. *)
Definition toe_inv (l : R) : R := (l * l + k_1 * l) / (k_3 * (l + k_2)).

(** A converter to linear-light grays: the luminance of the lightness, three
    times. *)
Definition grayConverter (hsl : triple) : triple :=
  let '(_, _, l) := hsl in
  let Y := (toe_inv l / whiteLightness) ^ 3 in
  (Y, Y, Y).

(** What "up to rounding" means below: an absolute difference far above
    the rounding of the binary64 operations on numbers of this size. *)
Definition roundingTolerance : R := 1e-9.

(** A violet scale with two steps [500] apart. *)
Definition violetOptions : GenerateColorScaleOptions :=
  {| baseHue := 290; minChroma := 0.4; maxChroma := 0.967;
     steps := [500; 1000]; enableBezoldBruckeShift := None |}.

(** The eight option names that the loop of [main] knows. *)
Definition isFlag (arg : string) : bool :=
  String.eqb arg "--config" || String.eqb arg "-c"
  || String.eqb arg "--output" || String.eqb arg "-o"
  || String.eqb arg "--format" || String.eqb arg "-f"
  || String.eqb arg "--help" || String.eqb arg "-h".

(** The number of [#] characters of a string. *)
Fixpoint hashCount (s : string) : nat :=
  match s with
  | EmptyString => 0%nat
  | String c rest =>
      if Ascii.eqb c "#" then S (hashCount rest) else hashCount rest
  end.

(** Every colour of a configuration passes the checks of
    [generateColorScale] together with the configured steps. *)
Definition validColors (config : ColorConfig.t) : Prop :=
  Forall
    (fun entry => validOptions (PaletteCli.optionsFor config (snd entry)))
    (ColorConfig.colors config).

(** [x'] is [x] rounded as [Math.round] does: an integer at most a half
    away, a half rounding up. *)
Definition roundedFrom (x x' : R) : Prop :=
  isIntegerNumber x' /\ x - 0.5 < x' <= x + 0.5.

(** A stand-in for the hex conversion where its text does not matter. *)
Definition noHex (rgb : triple) : string := EmptyString.

End Vocabulary.

(** * Properties *)

(** ** Comparisons *)

Lemma num_lt_true (x y : R) : num_lt x y = true <-> x < y.
Proof. unfold num_lt; destruct (Rlt_dec x y); split; intros; (easy || lra). Qed.

Lemma num_le_true (x y : R) : num_le x y = true <-> x <= y.
Proof. unfold num_le; destruct (Rle_dec x y); split; intros; (easy || lra). Qed.

Lemma num_gt_true (x y : R) : num_gt x y = true <-> x > y.
Proof. unfold num_gt. rewrite num_lt_true. lra. Qed.

Lemma num_ge_true (x y : R) : num_ge x y = true <-> x >= y.
Proof. unfold num_ge. rewrite num_le_true. lra. Qed.

Lemma num_eq_true (x y : R) : num_eq x y = true <-> x = y.
Proof. unfold num_eq; destruct (Req_dec_T x y); split; intros; (easy || lra). Qed.

Lemma num_lt_false (x y : R) : num_lt x y = false <-> y <= x.
Proof. unfold num_lt; destruct (Rlt_dec x y); split; intros; (easy || lra). Qed.

Lemma num_le_false (x y : R) : num_le x y = false <-> y < x.
Proof. unfold num_le; destruct (Rle_dec x y); split; intros; (easy || lra). Qed.

Lemma num_gt_false (x y : R) : num_gt x y = false <-> x <= y.
Proof. unfold num_gt. rewrite num_lt_false. lra. Qed.

Lemma num_ge_false (x y : R) : num_ge x y = false <-> x < y.
Proof. unfold num_ge. rewrite num_le_false. lra. Qed.

Lemma num_eq_false (x y : R) : num_eq x y = false <-> x <> y.
Proof. unfold num_eq; destruct (Req_dec_T x y); split; intros; (easy || lra). Qed.

(** ** Bounds on the exponential *)

Section ExpBounds.

Lemma exp_below_inv (y : R) : y < 1 -> exp y <= / (1 - y).
Proof.
  intros Hy.
  assert (H := exp_ineq1_le (- y)). rewrite exp_Ropp in H.
  assert (He := exp_pos y).
  apply Rmult_le_reg_l with (1 - y); [lra|].
  rewrite Rinv_r by lra.
  apply Rmult_le_reg_r with (/ exp y); [apply Rinv_0_lt_compat, He|].
  rewrite Rmult_assoc, Rinv_r by lra. lra.
Qed.

Lemma exp_double_le (x c d : R) : exp x <= c -> c * c <= d -> exp (2 * x) <= d.
Proof.
  intros Hc Hd. replace (2 * x) with (x + x) by ring. rewrite exp_plus.
  assert (He := exp_pos x). nra.
Qed.

Lemma exp_double_ge (x c d : R) :
  0 <= c -> c <= exp x -> d <= c * c -> d <= exp (2 * x).
Proof.
  intros H0 Hc Hd. replace (2 * x) with (x + x) by ring. rewrite exp_plus. nra.
Qed.

(** Eleven squarings of [exp (3.04 / 2048) <= 1 / (1 - 3.04 / 2048)] *)
Lemma exp_304_upper : exp 3.04 <= 21.
Proof.
  replace 3.04 with (2 * (2 * (2 * (2 * (2 * (2 * (2 * (2 * (2 * (2 * (2 *
    (19 / 12800)))))))))))) by lra.
  apply exp_double_le with 4.577391263019529; [|lra].
  apply exp_double_le with 2.139483877719; [|lra].
  apply exp_double_le with 1.462697466231141; [|lra].
  apply exp_double_le with 1.209420301727708; [|lra].
  apply exp_double_le with 1.099736469217834; [|lra].
  apply exp_double_le with 1.04868320727369; [|lra].
  apply exp_double_le with 1.024052345963667; [|lra].
  apply exp_double_le with 1.01195471537202; [|lra].
  apply exp_double_le with 1.005959599274255; [|lra].
  apply exp_double_le with 1.002975373214245; [|lra].
  apply exp_double_le with 1.001486581644629; [|lra].
  eapply Rle_trans; [apply exp_below_inv; lra|].
  replace (1 - 19 / 12800) with (12781 / 12800) by lra.
  rewrite Rinv_div. lra.
Qed.

(** Eight squarings of [1 + 1.52 / 256 <= exp (1.52 / 256)] *)
Lemma exp_152_lower : 4.5 <= exp 1.52.
Proof.
  replace 1.52 with (2 * (2 * (2 * (2 * (2 * (2 * (2 * (2 *
    (19 / 3200))))))))) by lra.
  apply exp_double_ge with 2.133476142826075; [lra| |lra].
  apply exp_double_ge with 1.46064237335019; [lra| |lra].
  apply exp_double_ge with 1.208570384110992; [lra| |lra].
  apply exp_double_ge with 1.099349982540134; [lra| |lra].
  apply exp_double_ge with 1.048498918711953; [lra| |lra].
  apply exp_double_ge with 1.023962361960611; [lra| |lra].
  apply exp_double_ge with 1.01191025390625; [lra| |lra].
  apply exp_double_ge with 1.0059375; [lra| |lra].
  assert (H := exp_ineq1_le (19 / 3200)). lra.
Qed.

End ExpBounds.

(** ** ContrastModel *)

Section ContrastModelProperties.

Import ContrastModel.

Lemma max_min_clamp (x : R) : Rmax 0 (Rmin 1 x) = clamp 0 1 x.
Proof.
  unfold clamp. destruct (Rlt_dec x 0).
  - rewrite Rmin_right, Rmax_left by lra. reflexivity.
  - destruct (Rlt_dec 1 x).
    + rewrite Rmin_left, Rmax_right by lra. reflexivity.
    + rewrite Rmin_right, Rmax_right by lra. reflexivity.
Qed.

Lemma clamp_range (x : R) : 0 <= clamp 0 1 x <= 1.
Proof.
  unfold clamp. destruct (Rlt_dec x 0); [lra|]. destruct (Rlt_dec 1 x); lra.
Qed.

Lemma scaleToContrast_increasing (a b : R) :
  a < b -> scaleToContrast a < scaleToContrast b.
Proof. intros H. unfold scaleToContrast. apply exp_increasing. lra. Qed.

Lemma scaleToContrast_0 : scaleToContrast 0 = 1.
Proof.
  unfold scaleToContrast. replace (3.04 * (0 / 1000)) with 0 by lra.
  apply exp_0.
Qed.

Lemma scaleToContrast_1000 : scaleToContrast 1000 <= 21.
Proof.
  unfold scaleToContrast. replace (3.04 * (1000 / 1000)) with 3.04 by lra.
  apply exp_304_upper.
Qed.

Lemma scaleToContrast_range (step : R) :
  0 <= step <= 1000 -> 1 <= scaleToContrast step <= 21.
Proof.
  intros [H0 H1]. split.
  - rewrite <- scaleToContrast_0.
    destruct H0 as [H0 | <-]; [left; now apply scaleToContrast_increasing | lra].
  - apply Rle_trans with (scaleToContrast 1000); [|apply scaleToContrast_1000].
    destruct H1 as [H1 | ->]; [left; now apply scaleToContrast_increasing | lra].
Qed.

Lemma scaleToContrast_sub (a b : R) :
  scaleToContrast (b - a) = scaleToContrast b / scaleToContrast a.
Proof.
  unfold scaleToContrast, Rdiv. rewrite <- exp_Ropp, <- exp_plus.
  f_equal. lra.
Qed.

Lemma reverseWCAGContrast_in_range (contrast y : R) :
  1 <= contrast <= 21 -> 0 <= y <= 1 ->
  reverseWCAGContrast contrast y =
    Some (Rmax 0 (Rmin 1 (if num_gt y 0.18
                          then (y + 0.05) / contrast - 0.05
                          else contrast * (y + 0.05) - 0.05))).
Proof.
  intros Hc Hy. unfold reverseWCAGContrast.
  replace (num_ge y 0 && num_le y 1) with true
    by (symmetry; apply andb_true_intro; rewrite num_ge_true, num_le_true; lra).
  replace (num_ge contrast 1 && num_le contrast 21) with true
    by (symmetry; apply andb_true_intro; rewrite num_ge_true, num_le_true; lra).
  reflexivity.
Qed.

Lemma reverseWCAGContrast_none (contrast y : R) :
  reverseWCAGContrast contrast y = None <->
  ~ (1 <= contrast <= 21) \/ ~ (0 <= y <= 1).
Proof.
  unfold reverseWCAGContrast. split.
  - destruct (num_ge y 0 && num_le y 1) eqn:Ey; simpl.
    + destruct (num_ge contrast 1 && num_le contrast 21) eqn:Ec; simpl.
      * discriminate.
      * intros _. left. intros [H1 H2].
        apply andb_false_iff in Ec.
        rewrite num_ge_false, num_le_false in Ec. lra.
    + intros _. right. intros [H1 H2].
      apply andb_false_iff in Ey.
      rewrite num_ge_false, num_le_false in Ey. lra.
  - intros [H | H].
    + destruct (num_ge y 0 && num_le y 1); simpl; [|reflexivity].
      destruct (num_ge contrast 1 && num_le contrast 21) eqn:Ec; simpl;
        [|reflexivity].
      apply andb_prop in Ec. rewrite num_ge_true, num_le_true in Ec.
      exfalso. apply H. lra.
    + destruct (num_ge y 0 && num_le y 1) eqn:Ey; simpl; [|reflexivity].
      apply andb_prop in Ey. rewrite num_ge_true, num_le_true in Ey.
      exfalso. apply H. lra.
Qed.

(** C5: [scaleToContrast step] is [exp (3.04 * step / 1000)] on the scale
    [[0, 1000]], it is strictly increasing in the step, and it is [1] at
    step [0]. *)
Theorem scaleToContrast_exp_monotone :
  (forall step : R,
      0 <= step <= 1000 -> scaleToContrast step = exp (3.04 * step / 1000))
  /\ (forall a b : R, a < b -> scaleToContrast a < scaleToContrast b)
  /\ scaleToContrast 0 = 1.
Proof.
  split; [|split].
  - intros step _. unfold scaleToContrast. f_equal. lra.
  - apply scaleToContrast_increasing.
  - apply scaleToContrast_0.
Qed.

Lemma scaleToContrast_exp_monotone_witness :
  scaleToContrast 500 = exp (3.04 * 500 / 1000)
  /\ scaleToContrast 100 < scaleToContrast 200.
Proof.
  destruct scaleToContrast_exp_monotone as (Hexp & Hmono & _).
  split; [apply Hexp; lra | apply Hmono; lra].
Defined.

(** C2: for a contrast in [[1, 21]] and a reference luminance [y] in
    [[0, 1]], [reverseWCAGContrast] returns [(y + 0.05) / contrast - 0.05]
    when [y > 0.18] and [contrast * (y + 0.05) - 0.05] when [y <= 0.18],
    clamped into [[0, 1]]. *)
Theorem reverseWCAGContrast_formula (contrast y : R) :
  1 <= contrast <= 21 -> 0 <= y <= 1 ->
  (y > 0.18 ->
   reverseWCAGContrast contrast y =
     Some (clamp 0 1 ((y + 0.05) / contrast - 0.05)))
  /\ (y <= 0.18 ->
      reverseWCAGContrast contrast y =
        Some (clamp 0 1 (contrast * (y + 0.05) - 0.05)))
  /\ (exists v, reverseWCAGContrast contrast y = Some v /\ 0 <= v <= 1).
Proof.
  intros Hc Hy.
  rewrite (reverseWCAGContrast_in_range contrast y Hc Hy), max_min_clamp.
  split; [|split].
  - intros H. apply num_gt_true in H. now rewrite H.
  - intros H. apply num_gt_false in H. now rewrite H.
  - eexists. split; [reflexivity | apply clamp_range].
Qed.

Lemma reverseWCAGContrast_formula_witness :
  reverseWCAGContrast 4.5 1 = Some (clamp 0 1 ((1 + 0.05) / 4.5 - 0.05))
  /\ reverseWCAGContrast 4.5 0.1 = Some (clamp 0 1 (4.5 * (0.1 + 0.05) - 0.05)).
Proof.
  split.
  - apply (reverseWCAGContrast_formula 4.5 1); lra.
  - apply (reverseWCAGContrast_formula 4.5 0.1); lra.
Defined.

(** C3: [reverseWCAGContrast contrast y] is the failure value exactly when
    [contrast] is outside [[1, 21]] or [y] is outside [[0, 1]]; inside both
    ranges it is a number. *)
Theorem reverseWCAGContrast_fails_iff (contrast y : R) :
  (reverseWCAGContrast contrast y = None <->
   ~ (1 <= contrast <= 21) \/ ~ (0 <= y <= 1))
  /\ (1 <= contrast <= 21 -> 0 <= y <= 1 ->
      exists v : R, reverseWCAGContrast contrast y = Some v).
Proof.
  split; [apply reverseWCAGContrast_none|].
  intros Hc Hy. rewrite (reverseWCAGContrast_in_range contrast y Hc Hy).
  eexists; reflexivity.
Qed.

Lemma reverseWCAGContrast_fails_iff_witness :
  reverseWCAGContrast 22 1 = None
  /\ reverseWCAGContrast 4.5 2 = None
  /\ exists v : R, reverseWCAGContrast 4.5 1 = Some v.
Proof.
  split; [|split].
  - apply (reverseWCAGContrast_fails_iff 22 1). left; lra.
  - apply (reverseWCAGContrast_fails_iff 4.5 2). right; lra.
  - apply (reverseWCAGContrast_fails_iff 4.5 1); lra.
Defined.

End ContrastModelProperties.

(** ** ScaleCurveFunctions *)

Section ScaleCurveProperties.

Import ScaleCurveFunctions.

(** A guard [_ < _ || _ > _ || ...] that does not fire. *)
Ltac guard_false :=
  repeat apply orb_false_intro;
  (apply num_lt_false || apply num_gt_false); lra.

Lemma step_guard (step : R) :
  0 <= step <= 1000 ->
  num_lt (step / 1000) 0 || num_gt (step / 1000) 1 = false.
Proof. intros H. guard_false. Qed.

Lemma hue_guard (baseHue : R) :
  0 <= baseHue <= 360 -> num_lt baseHue 0 || num_gt baseHue 360 = false.
Proof. intros H. guard_false. Qed.

Lemma chroma_guard (minChroma maxChroma : R) :
  0 <= minChroma -> minChroma <= maxChroma -> maxChroma <= 1 ->
  num_lt minChroma 0 || num_gt minChroma 1
  || num_lt maxChroma 0 || num_gt maxChroma 1 = false
  /\ num_gt minChroma maxChroma = false.
Proof.
  intros H0 H1 H2. split; guard_false.
Qed.

Lemma computeChroma_valid (step minChroma maxChroma : R) :
  0 <= step <= 1000 ->
  0 <= minChroma -> minChroma <= maxChroma -> maxChroma <= 1 ->
  computeChroma step minChroma maxChroma =
    Ok (-4 * (maxChroma - minChroma) * (step / 1000) ^ 2
        + 4 * (maxChroma - minChroma) * (step / 1000) + minChroma).
Proof.
  intros Hs H0 H1 H2. unfold computeChroma. cbv zeta.
  rewrite (step_guard step Hs).
  destruct (chroma_guard minChroma maxChroma H0 H1 H2) as [-> ->].
  reflexivity.
Qed.

Lemma computeHue_valid (step baseHue : R) (enable : bool) :
  0 <= step <= 1000 -> 0 <= baseHue <= 360 ->
  computeHue step baseHue enable =
    Ok (if num_eq baseHue 0 || negb enable then baseHue
        else baseHue + 5 * (1 - step / 1000)).
Proof.
  intros Hs Hh. unfold computeHue. cbv zeta.
  rewrite (step_guard step Hs), (hue_guard baseHue Hh).
  now destruct (num_eq baseHue 0 || negb enable).
Qed.

(** C7, amended: for [0 <= minChroma <= maxChroma <= 1], [computeChroma] is
    the parabola [-4 * d * t^2 + 4 * d * t + minChroma] in [t = step / 1000]
    with [d = maxChroma - minChroma]; it is [minChroma] at steps [0] and
    [1000]; up to rounding it is [maxChroma] at step [500], nowhere larger
    than [maxChroma], and the same at [step] and at [1000 - step]. *)
Theorem computeChroma_parabola (minChroma maxChroma : R) :
  0 <= minChroma -> minChroma <= maxChroma -> maxChroma <= 1 ->
  (forall step : R, 0 <= step <= 1000 ->
     computeChroma step minChroma maxChroma =
       Ok (let t := step / 1000 in
           -4 * (maxChroma - minChroma) * t ^ 2
           + 4 * (maxChroma - minChroma) * t + minChroma))
  /\ computeChroma 0 minChroma maxChroma = Ok minChroma
  /\ computeChroma 1000 minChroma maxChroma = Ok minChroma
  /\ (exists c : R,
        computeChroma 500 minChroma maxChroma = Ok c
        /\ Rabs (c - maxChroma) <= roundingTolerance)
  /\ (forall step c : R, 0 <= step <= 1000 ->
        computeChroma step minChroma maxChroma = Ok c ->
        c <= maxChroma + roundingTolerance)
  /\ (forall step : R, 0 <= step <= 1000 ->
        exists c1 c2 : R,
          computeChroma step minChroma maxChroma = Ok c1
          /\ computeChroma (1000 - step) minChroma maxChroma = Ok c2
          /\ Rabs (c1 - c2) <= roundingTolerance).
Proof.
  intros H0 H1 H2.
  assert (Htol : 0 <= roundingTolerance) by (unfold roundingTolerance; lra).
  split; [|split; [|split; [|split; [|split]]]].
  - intros step Hs. now apply computeChroma_valid.
  - rewrite computeChroma_valid by lra. f_equal. lra.
  - rewrite computeChroma_valid by lra. f_equal. lra.
  - rewrite computeChroma_valid by lra. eexists. split; [reflexivity|].
    replace (-4 * (maxChroma - minChroma) * (500 / 1000) ^ 2
             + 4 * (maxChroma - minChroma) * (500 / 1000) + minChroma
             - maxChroma) with 0 by lra.
    now rewrite Rabs_R0.
  - intros step c Hs. rewrite computeChroma_valid by lra.
    intros [= <-].
    assert (Hsq : 0 <= (2 * (step / 1000) - 1) ^ 2) by apply pow2_ge_0.
    nra.
  - intros step Hs. rewrite !computeChroma_valid by lra.
    eexists; eexists. split; [reflexivity|]. split; [reflexivity|].
    match goal with |- Rabs ?d <= _ => replace d with 0 by lra end.
    now rewrite Rabs_R0.
Qed.

Lemma computeChroma_parabola_witness :
  (exists c : R,
      computeChroma 500 0.03 0.29 = Ok c
      /\ Rabs (c - 0.29) <= roundingTolerance)
  /\ exists c1 c2 : R,
      computeChroma 300 0.4 0.967 = Ok c1
      /\ computeChroma (1000 - 300) 0.4 0.967 = Ok c2
      /\ Rabs (c1 - c2) <= roundingTolerance.
Proof.
  split.
  - apply (computeChroma_parabola 0.03 0.29); lra.
  - apply (computeChroma_parabola 0.4 0.967); lra.
Defined.

(** C8, as stated, fails: with the shift enabled the hue of step [0] for
    [baseHue = 360] is [365], outside [[0, 360]]. *)
Lemma computeHue_above_360 :
  exists hue : R,
    computeHue 0 360 true = Ok hue /\ ~ (0 <= hue <= 360).
Proof.
  exists (360 + 5 * (1 - 0 / 1000)). split; [|lra].
  rewrite computeHue_valid by lra.
  replace (num_eq 360 0) with false by (symmetry; apply num_eq_false; lra).
  reflexivity.
Qed.

(** C8, amended: for a step in [[0, 1000]] and a [baseHue] in [[0, 360]],
    [computeHue] returns a hue between [baseHue] and [baseHue + 5], hence in
    [[0, 365]], and in [[0, 360]] when [baseHue <= 355]; the hue is [baseHue]
    unchanged when the shift is disabled or [baseHue = 0], and
    [baseHue + 5 * (1 - step / 1000)] otherwise. *)
Theorem computeHue_range (step baseHue : R) (enable : bool) :
  0 <= step <= 1000 -> 0 <= baseHue <= 360 ->
  exists hue : R,
    computeHue step baseHue enable = Ok hue
    /\ baseHue <= hue <= baseHue + 5
    /\ 0 <= hue <= 365
    /\ (baseHue <= 355 -> hue <= 360)
    /\ (enable = false \/ baseHue = 0 -> hue = baseHue)
    /\ (enable = true -> baseHue <> 0 ->
        hue = baseHue + 5 * (1 - step / 1000)).
Proof.
  intros Hs Hh. rewrite computeHue_valid by assumption.
  eexists. split; [reflexivity|].
  destruct (num_eq baseHue 0) eqn:E0; simpl.
  - apply num_eq_true in E0. repeat split; intros; try lra.
  - apply num_eq_false in E0. destruct enable; simpl.
    + repeat split; intros; lra.
    + repeat split; intros; (lra || discriminate).
Qed.

Lemma computeHue_range_witness :
  exists hue : R,
    computeHue 500 256 true = Ok hue
    /\ 256 <= hue <= 256 + 5
    /\ 0 <= hue <= 365
    /\ (256 <= 355 -> hue <= 360)
    /\ (true = false \/ 256 = 0 -> hue = 256)
    /\ (true = true -> 256 <> 0 -> hue = 256 + 5 * (1 - 500 / 1000)).
Proof. apply (computeHue_range 500 256 true); lra. Defined.

End ScaleCurveProperties.

(** ** [computeChroma] in binary64 *)

Section Binary64Rounding.

Import PrimFloat.

(** C7, as stated, fails on the numbers the code computes with: steps [300]
    and [700] of the chroma range [0.4 .. 0.967] get different chromas, and
    the chroma of step [500] for the range [0.03 .. 0.29] is not [0.29] but
    the next binary64 number above it. *)
Lemma computeChroma_binary64_rounds :
  exists c300 c700 c500 : float,
    Binary64.computeChroma 300 0.4 0.967 = Ok c300
    /\ Binary64.computeChroma (1000 - 300) 0.4 0.967 = Ok c700
    /\ PrimFloat.eqb c300 c700 = false
    /\ Binary64.computeChroma 500 0.03 0.29 = Ok c500
    /\ PrimFloat.eqb c500 0.29 = false
    /\ PrimFloat.ltb 0.29 c500 = true.
Proof.
  exists 0.87628%float, 0.8762799999999998%float, 0.29000000000000004%float.
  repeat split; vm_compute; reflexivity.
Qed.

End Binary64Rounding.

(** ** The cube root *)

Section CubeRoot.

Lemma cbrt_0 : cbrt 0 = 0.
Proof. unfold cbrt. destruct (Req_dec_T 0 0); [reflexivity | contradiction]. Qed.

Lemma cbrt_pos (x : R) : 0 < x -> cbrt x = Rpower x (/ 3).
Proof.
  intros H. unfold cbrt.
  destruct (Req_dec_T x 0); [lra|]. destruct (Rlt_dec 0 x); [reflexivity|lra].
Qed.

Lemma cbrt_nonneg (x : R) : 0 <= x -> 0 <= cbrt x.
Proof.
  intros [H | <-]; [|rewrite cbrt_0; lra].
  rewrite cbrt_pos by assumption. left. apply exp_pos.
Qed.

Lemma cbrt_cube (x : R) : 0 <= x -> cbrt x ^ 3 = x.
Proof.
  intros [H | <-]; [|rewrite cbrt_0; ring].
  rewrite cbrt_pos by assumption.
  rewrite <- Rpower_pow by apply exp_pos.
  rewrite Rpower_mult.
  replace (/ 3 * INR 3) with 1 by (simpl; lra).
  now apply Rpower_1.
Qed.

Lemma cube_le_inv (a b : R) : 0 <= a -> 0 <= b -> a ^ 3 <= b ^ 3 -> a <= b.
Proof.
  intros Ha Hb H. destruct (Rle_dec a b) as [|Hn]; [assumption|].
  exfalso. assert (Hlt : b < a) by lra.
  assert (b ^ 3 < a ^ 3); [|lra].
  assert (0 <= b * b) by nra.
  assert (b * b < a * a) by nra.
  simpl. nra.
Qed.

Lemma cbrt_le_cube (x b : R) : 0 <= x -> 0 <= b -> x <= b ^ 3 -> cbrt x <= b.
Proof.
  intros Hx Hb H. apply cube_le_inv; [now apply cbrt_nonneg | assumption |].
  now rewrite cbrt_cube.
Qed.

Lemma cbrt_ge_cube (x b : R) : 0 <= b -> b ^ 3 <= x -> b <= cbrt x.
Proof.
  intros Hb H.
  assert (Hx : 0 <= x) by (apply Rle_trans with (b ^ 3); [simpl; nra | assumption]).
  apply cube_le_inv; [assumption | now apply cbrt_nonneg |].
  now rewrite cbrt_cube.
Qed.

Lemma cbrt_unique (x b : R) : 0 <= b -> b ^ 3 = x -> cbrt x = b.
Proof.
  intros Hb H. apply Rle_antisym.
  - apply cbrt_le_cube; [rewrite <- H; simpl; nra | assumption | lra].
  - apply cbrt_ge_cube; [assumption | lra].
Qed.

Lemma cbrt_mult (c x : R) : 0 <= c -> 0 <= x -> cbrt (c * x) = cbrt c * cbrt x.
Proof.
  intros Hc Hx. apply cbrt_unique.
  - apply Rmult_le_pos; now apply cbrt_nonneg.
  - rewrite Rpow_mult_distr, !cbrt_cube by assumption. reflexivity.
Qed.

End CubeRoot.

(** ** PerceptualLightnessMapper *)

Section PerceptualLightnessProperties.

Import PerceptualLightnessMapper.

(** The clamps of [yToOklabLightness] make the cone responses non-negative
    for every input. *)
Lemma clampedLMS_nonneg (inputY : R) :
  let '(l, m, s) := clampedLMS inputY in 0 <= l /\ 0 <= m /\ 0 <= s.
Proof.
  unfold clampedLMS, M1. cbv zeta beta iota.
  repeat split; apply Rmax_l.
Qed.

(** The cone responses of the white point [Y = 1]. *)
Lemma clampedLMS_white :
  let '(l, m, s) := clampedLMS 1 in
  0.99989 <= l <= 0.999891 /\ 1 <= m <= 1.000027 /\ 1 <= s <= 1.00048.
Proof.
  unfold clampedLMS, M1, row_dot. cbv zeta beta iota.
  rewrite !Rmax_right by lra. lra.
Qed.

(** On non-negative luminances the cone responses are linear in [Y]. *)
Lemma clampedLMS_linear (inputY : R) :
  0 <= inputY ->
  clampedLMS inputY =
    (let '(l, m, s) := clampedLMS 1 in (l * inputY, m * inputY, s * inputY)).
Proof.
  intros HY. unfold clampedLMS, M1, row_dot. cbv zeta beta iota.
  rewrite !Rmax_right by lra.
  f_equal; [f_equal|]; lra.
Qed.

Lemma whiteLightness_bounds : 0.9 <= whiteLightness <= 1.
Proof.
  unfold whiteLightness, yToOklabLightness.
  assert (Hw := clampedLMS_white).
  destruct (clampedLMS 1) as [[l m] s]. destruct Hw as (Hl & Hm & Hs).
  unfold M2, row_dot.
  assert (0.99 <= cbrt l) by (apply cbrt_ge_cube; lra).
  assert (cbrt l <= 0.999964) by (apply cbrt_le_cube; lra).
  assert (1 <= cbrt m) by (apply cbrt_ge_cube; lra).
  assert (cbrt m <= 1.000009) by (apply cbrt_le_cube; lra).
  assert (1 <= cbrt s) by (apply cbrt_ge_cube; lra).
  assert (cbrt s <= 1.01) by (apply cbrt_le_cube; lra).
  lra.
Qed.

Lemma yToOklabLightness_cbrt (inputY : R) :
  0 <= inputY -> yToOklabLightness inputY = whiteLightness * cbrt inputY.
Proof.
  intros HY. unfold whiteLightness, yToOklabLightness.
  rewrite (clampedLMS_linear inputY HY).
  assert (Hw := clampedLMS_white).
  destruct (clampedLMS 1) as [[l m] s]. destruct Hw as (Hl & Hm & Hs).
  unfold M2, row_dot.
  rewrite !cbrt_mult by lra. ring.
Qed.

Lemma yToOklabLightness_range (inputY : R) :
  0 <= inputY <= 1 -> 0 <= yToOklabLightness inputY <= 1.
Proof.
  intros HY. rewrite yToOklabLightness_cbrt by lra.
  assert (HK := whiteLightness_bounds).
  assert (0 <= cbrt inputY) by (apply cbrt_nonneg; lra).
  assert (cbrt inputY <= 1) by (apply cbrt_le_cube; lra).
  nra.
Qed.

Lemma k_3_value : k_3 * (1 + k_2) = 1 + k_1.
Proof. unfold k_3, k_2, k_1. lra. Qed.

Lemma k_3_bounds : 1.17 <= k_3 <= 1.171.
Proof. unfold k_3, k_2, k_1. lra. Qed.

Lemma toe_radicand_nonneg (L : R) :
  0 <= L -> 0 <= (k_3 * L - k_1) * (k_3 * L - k_1) + 4 * k_2 * k_3 * L.
Proof.
  intros HL. assert (Hk := k_3_bounds).
  assert (Hsq := Rle_0_sqr (k_3 * L - k_1)). unfold Rsqr in Hsq.
  assert (0 <= k_3 * L) by (apply Rmult_le_pos; lra).
  unfold k_2. lra.
Qed.

Lemma sq_le_inv (x y : R) : 0 <= y -> x * x <= y * y -> x <= y.
Proof. intros Hy H. destruct (Rle_dec x y); [assumption | nra]. Qed.

Lemma toe_range (L : R) : 0 <= L <= 1 -> 0 <= toe L <= 1.
Proof.
  intros [H0 H1]. unfold toe. cbv zeta.
  assert (Hk := k_3_bounds). assert (Hv := k_3_value).
  assert (Hrad := toe_radicand_nonneg L H0).
  assert (Hc : 0 <= 4 * k_2 * k_3 * L)
    by (unfold k_2; assert (0 <= k_3 * L) by (apply Rmult_le_pos; lra); lra).
  assert (Hup : k_3 * L <= k_3)
    by (rewrite <- (Rmult_1_r k_3) at 2; apply Rmult_le_compat_l; lra).
  assert (Hq := sqrt_pos ((k_3 * L - k_1) * (k_3 * L - k_1) + 4 * k_2 * k_3 * L)).
  assert (Hqq := sqrt_sqrt _ Hrad).
  set (q := sqrt ((k_3 * L - k_1) * (k_3 * L - k_1) + 4 * k_2 * k_3 * L)) in *.
  set (a := k_3 * L - k_1) in *.
  set (c := 4 * k_2 * k_3 * L) in *.
  split.
  - assert (- a <= q) by (apply sq_le_inv; [assumption | lra]).
    lra.
  - assert (Ha2 : a <= 1) by (unfold a, k_1 in *; lra).
    assert (Hc4 : c <= 4 - 4 * a).
    { unfold c, a. unfold k_2, k_1 in *. lra. }
    assert (q <= 2 - a) by (apply sq_le_inv; [lra | nra]).
    lra.
Qed.

Lemma toe_0 : toe 0 = 0.
Proof.
  unfold toe. cbv zeta.
  replace ((k_3 * 0 - k_1) * (k_3 * 0 - k_1) + 4 * k_2 * k_3 * 0)
    with (k_1 * k_1) by ring.
  rewrite sqrt_square by (unfold k_1; lra). lra.
Qed.

Lemma toe_1 : toe 1 = 1.
Proof.
  unfold toe. cbv zeta.
  assert (Hk := k_3_bounds). assert (Hv := k_3_value).
  replace ((k_3 * 1 - k_1) * (k_3 * 1 - k_1) + 4 * k_2 * k_3 * 1)
    with ((2 - (k_3 - k_1)) * (2 - (k_3 - k_1))) by nra.
  rewrite sqrt_square by (unfold k_1; lra). lra.
Qed.

(** C10: for a luminance [Y] in [[0, 1]], the cone responses are
    non-negative when the cube root is taken, the Oklab lightness lies in
    [[0, 1]], the toe maps [[0, 1]] into [[0, 1]] with [toe 0 = 0] and
    [toe 1 = 1], and so [yToOkhslLightness Y] lies in [[0, 1]]. *)
Theorem yToOkhslLightness_range (inputY : R) :
  0 <= inputY <= 1 ->
  (let '(l, m, s) := clampedLMS inputY in 0 <= l /\ 0 <= m /\ 0 <= s)
  /\ 0 <= yToOklabLightness inputY <= 1
  /\ (forall L : R, 0 <= L <= 1 -> 0 <= toe L <= 1)
  /\ toe 0 = 0
  /\ toe 1 = 1
  /\ 0 <= yToOkhslLightness inputY <= 1.
Proof.
  intros HY.
  split; [apply clampedLMS_nonneg|].
  split; [now apply yToOklabLightness_range|].
  split; [apply toe_range|].
  split; [apply toe_0|].
  split; [apply toe_1|].
  unfold yToOkhslLightness. now apply toe_range, yToOklabLightness_range.
Qed.

Lemma yToOkhslLightness_range_witness :
  0 <= yToOkhslLightness 0.18 <= 1.
Proof. apply (yToOkhslLightness_range 0.18). lra. Defined.

End PerceptualLightnessProperties.

(** ** ColorScaleGenerator *)

Section ScaleObject.

Lemma scale_get_set_same (scale : ColorScale) (k : R) (v : triple) :
  scale_get (scale_set scale k v) k = Some v.
Proof.
  induction scale as [|[k' v'] rest IH]; simpl.
  - replace (num_eq k k) with true by (symmetry; now apply num_eq_true).
    reflexivity.
  - destruct (num_eq k' k) eqn:E; simpl; rewrite E; [reflexivity | exact IH].
Qed.

Lemma scale_get_set_other (scale : ColorScale) (k k' : R) (v : triple) :
  k <> k' -> scale_get (scale_set scale k v) k' = scale_get scale k'.
Proof.
  intros Hne. induction scale as [|[k0 v0] rest IH]; simpl.
  - replace (num_eq k k') with false by (symmetry; now apply num_eq_false).
    reflexivity.
  - destruct (num_eq k0 k) eqn:E; simpl.
    + apply num_eq_true in E. subst k0.
      replace (num_eq k k') with false by (symmetry; now apply num_eq_false).
      reflexivity.
    + destruct (num_eq k0 k'); [reflexivity | exact IH].
Qed.

Lemma scale_keys_set (scale : ColorScale) (k k' : R) (v : triple) :
  In k' (scale_keys (scale_set scale k v)) <-> k' = k \/ In k' (scale_keys scale).
Proof.
  unfold scale_keys. induction scale as [|[k0 v0] rest IH]; simpl.
  - split; intros [H | H]; auto.
  - destruct (num_eq k0 k) eqn:E; simpl.
    + apply num_eq_true in E. subst k0. split; intros H.
      * tauto.
      * destruct H as [H | H]; [left; congruence | exact H].
    + rewrite IH. tauto.
Qed.

(** The scale built by a callback that never throws and gives step [x] the
    colour [g x]. *)
Lemma reduce_total (F : R -> result triple) (g : R -> triple) (l : list R) :
  (forall x, In x l -> F x = Ok (g x)) ->
  forall acc : ColorScale,
    reduce (fun scale step => srgb <- F step ;; Ok (scale_set scale step srgb))
      l acc
    = Ok (fold_left (fun scale step => scale_set scale step (g step)) l acc).
Proof.
  induction l as [|x l IH]; intros HF acc; simpl; [reflexivity|].
  rewrite (HF x) by (now left). simpl.
  apply IH. intros y Hy. apply HF. now right.
Qed.

Lemma fold_set_get (g : R -> triple) (l : list R) :
  forall (acc : ColorScale) (k : R),
    (In k l ->
     scale_get (fold_left (fun sc st => scale_set sc st (g st)) l acc) k
     = Some (g k))
    /\ (~ In k l ->
        scale_get (fold_left (fun sc st => scale_set sc st (g st)) l acc) k
        = scale_get acc k).
Proof.
  induction l as [|x l IH]; intros acc k; simpl.
  - split; [contradiction | reflexivity].
  - destruct (IH (scale_set acc x (g x)) k) as [IHin IHout]. split.
    + intros Hin.
      destruct (in_dec Req_dec_T k l) as [Hl | Hl]; [now apply IHin|].
      destruct Hin as [-> | Hin]; [|contradiction].
      rewrite (IHout Hl). apply scale_get_set_same.
    + intros Hout.
      rewrite IHout by tauto. apply scale_get_set_other. tauto.
Qed.

Lemma fold_set_keys (g : R -> triple) (l : list R) :
  forall (acc : ColorScale) (k : R),
    In k (scale_keys (fold_left (fun sc st => scale_set sc st (g st)) l acc))
    <-> In k l \/ In k (scale_keys acc).
Proof.
  induction l as [|x l IH]; intros acc k; simpl.
  - tauto.
  - rewrite IH, scale_keys_set. intuition congruence.
Qed.

End ScaleObject.

Section GeneratorProperties.

Import ContrastModel PerceptualLightnessMapper ScaleCurveFunctions.
Import ColorScaleGenerator.

Lemma Number_isInteger_true (x : R) :
  Number_isInteger x = true <-> isIntegerNumber x.
Proof.
  unfold Number_isInteger, isIntegerNumber. rewrite num_eq_true. split.
  - intros H. now exists (Int_part x).
  - intros [z ->]. f_equal. apply Int_part_spec. lra.
Qed.

Lemma stepRejected_false (step : R) :
  stepRejected step = false <-> validStep step.
Proof.
  unfold stepRejected, validStep.
  rewrite !orb_false_iff, negb_false_iff, num_lt_false, num_gt_false,
    Number_isInteger_true.
  tauto.
Qed.

Lemma steps_check_false (l : list R) :
  existsb stepRejected l = false <-> Forall validStep l.
Proof.
  induction l as [|x l IH]; simpl.
  - split; [constructor | reflexivity].
  - rewrite orb_false_iff, IH, stepRejected_false. split.
    + intros [H1 H2]. now constructor.
    + intros H. inversion H; subst. now split.
Qed.

Lemma steps_check_true (l : list R) :
  Exists (fun step => ~ validStep step) l -> existsb stepRejected l = true.
Proof.
  intros H. destruct (existsb stepRejected l) eqn:E; [reflexivity|].
  apply steps_check_false in E. apply Exists_exists in H.
  destruct H as (x & Hin & Hx). rewrite Forall_forall in E.
  exfalso. apply Hx, E, Hin.
Qed.

Lemma validStep_dec (step : R) : {validStep step} + {~ validStep step}.
Proof.
  destruct (stepRejected step) eqn:E.
  - right. intros H. apply stepRejected_false in H. congruence.
  - left. now apply stepRejected_false.
Qed.

(** The options are rejected exactly when they are not valid. *)
Lemma invalidOptions_iff (options : GenerateColorScaleOptions) :
  invalidOptions options <-> ~ validOptions options.
Proof.
  unfold invalidOptions, validOptions. split.
  - intros H (Hh & H0 & H1 & H2 & Hs).
    destruct H as [H|[H|[H|[H|[H|[H|[H|H]]]]]]]; try lra.
    apply Exists_exists in H. destruct H as (x & Hin & Hx).
    rewrite Forall_forall in Hs. exact (Hx (Hs x Hin)).
  - intros Hn.
    destruct (Rlt_dec (baseHue options) 0); [tauto|].
    destruct (Rlt_dec 360 (baseHue options)); [tauto|].
    destruct (Rlt_dec (minChroma options) 0); [tauto|].
    destruct (Rlt_dec (maxChroma options) (minChroma options)); [tauto|].
    destruct (Rlt_dec 1 (maxChroma options)); [tauto|].
    do 7 right. apply neg_Forall_Exists_neg; [exact validStep_dec|].
    intros Hs. apply Hn. repeat split; (lra || assumption).
Qed.

Lemma targetLuminance_range (step : R) :
  0 <= step <= 1000 -> 0 <= 1.05 / scaleToContrast step - 0.05 <= 1.
Proof.
  intros Hs. assert (Hc := scaleToContrast_range step Hs).
  set (c := scaleToContrast step) in *.
  assert (Hlo : 0.05 <= 1.05 / c).
  { apply Rmult_le_reg_r with c; [lra|].
    unfold Rdiv. rewrite Rmult_assoc, Rinv_l by lra. lra. }
  assert (Hhi : 1.05 / c <= 1.05).
  { apply Rmult_le_reg_r with c; [lra|].
    unfold Rdiv. rewrite Rmult_assoc, Rinv_l by lra. nra. }
  lra.
Qed.

(** Without clamping: on the scale, the luminance that has contrast
    [scaleToContrast step] against white. *)
Lemma targetLuminance_valid (step : R) :
  0 <= step <= 1000 ->
  targetLuminance step = Some (1.05 / scaleToContrast step - 0.05).
Proof.
  intros Hs. unfold targetLuminance, default_y. cbv zeta.
  assert (Hc := scaleToContrast_range step Hs).
  assert (Hr := targetLuminance_range step Hs).
  rewrite reverseWCAGContrast_in_range by lra.
  replace (num_gt 1 0.18) with true by (symmetry; apply num_gt_true; lra).
  replace (1 + 0.05) with 1.05 by lra.
  rewrite Rmin_right, Rmax_right by lra. reflexivity.
Qed.

Lemma computeLightness_valid (step : R) :
  0 <= step <= 1000 ->
  computeLightness step =
    Ok (yToOkhslLightness (1.05 / scaleToContrast step - 0.05)).
Proof.
  intros Hs. unfold computeLightness.
  now rewrite targetLuminance_valid.
Qed.

(** C9: for an integer step in [[0, 1000]] the contrast
    [scaleToContrast step] lies in [[1, 21]] and the reference luminance is
    the constant [1], so [reverseWCAGContrast] does not fail inside
    [computeLightness] and [computeLightness] does not throw. *)
Theorem computeLightness_never_throws (step : R) :
  isIntegerNumber step -> 0 <= step <= 1000 ->
  1 <= scaleToContrast step <= 21
  /\ default_y = 1
  /\ reverseWCAGContrast (scaleToContrast step) default_y <> None
  /\ (exists Y : R, targetLuminance step = Some Y)
  /\ (exists l : R, computeLightness step = Ok l).
Proof.
  intros _ Hs.
  split; [now apply scaleToContrast_range|].
  split; [reflexivity|].
  assert (HY := targetLuminance_valid step Hs).
  split; [|split].
  - unfold targetLuminance in HY. cbv zeta in HY. now rewrite HY.
  - eexists; exact HY.
  - eexists; now apply computeLightness_valid.
Qed.

Lemma computeLightness_never_throws_witness :
  1 <= scaleToContrast 1000 <= 21
  /\ exists l : R, computeLightness 1000 = Ok l.
Proof.
  destruct (computeLightness_never_throws 1000) as (H & _ & _ & _ & Hl).
  - exists 1000%Z. reflexivity.
  - lra.
  - split; assumption.
Defined.

Section WithConverter.

Variable Color_okhsl_to_srgb : triple -> triple.

Local Abbreviation stepColor := (stepColor Color_okhsl_to_srgb).
Local Abbreviation generateColorScale :=
  (generateColorScale Color_okhsl_to_srgb).
Local Abbreviation stepColorValue := (stepColorValue Color_okhsl_to_srgb).

Lemma stepColor_valid (step hue minC maxC : R) (enable : bool) :
  0 <= step <= 1000 -> 0 <= hue <= 360 ->
  0 <= minC -> minC <= maxC -> maxC <= 1 ->
  stepColor step hue minC maxC enable
  = Ok (stepColorValue step hue minC maxC enable).
Proof.
  intros Hs Hh H0 H1 H2. unfold ColorScaleGenerator.stepColor.
  rewrite computeHue_valid, computeChroma_valid, computeLightness_valid
    by assumption.
  reflexivity.
Qed.

Lemma generateColorScale_valid (options : GenerateColorScaleOptions) :
  validOptions options ->
  generateColorScale options
  = Ok (fold_left
          (fun scale step =>
             scale_set scale step
               (stepColorValue step options.(baseHue) options.(minChroma)
                  options.(maxChroma) (shiftEnabled options)))
          options.(steps) []).
Proof.
  intros (Hh & H0 & H1 & H2 & Hsteps).
  unfold ColorScaleGenerator.generateColorScale. cbv zeta.
  rewrite (hue_guard _ Hh).
  destruct (chroma_guard _ _ H0 H1 H2) as [-> ->].
  change (fun step : R =>
            num_lt step 0 || num_gt step 1000 || negb (Number_isInteger step))
    with stepRejected.
  replace (existsb stepRejected (steps options)) with false
    by (symmetry; now apply steps_check_false).
  apply reduce_total with
    (F := fun step =>
            stepColor step (baseHue options) (minChroma options)
              (maxChroma options) (shiftEnabled options)).
  intros x Hx. rewrite Forall_forall in Hsteps.
  destruct (Hsteps x Hx) as [_ Hr].
  now apply stepColor_valid.
Qed.

(** C4: for valid options [generateColorScale] returns a scale whose keys
    are exactly the requested steps and which gives each step [s] the colour
    that the per-step pipeline [stepColor] computes from [s], [baseHue],
    [minChroma], [maxChroma] and the shift flag alone; a call with another
    array of steps that also contains [s], all other options equal, gives
    [s] the same colour. *)
Theorem generateColorScale_pointwise (options : GenerateColorScaleOptions) :
  validOptions options ->
  exists scale : ColorScale,
    generateColorScale options = Ok scale
    /\ (forall s : R, In s (scale_keys scale) <-> In s options.(steps))
    /\ (forall s : R, In s options.(steps) ->
        exists srgb : triple,
          stepColor s options.(baseHue) options.(minChroma)
            options.(maxChroma) (shiftEnabled options) = Ok srgb
          /\ scale_get scale s = Some srgb)
    /\ (forall s : R, ~ In s options.(steps) -> scale_get scale s = None)
    /\ (forall (others : list R) (s : R),
        validOptions (withSteps options others) ->
        In s options.(steps) -> In s others ->
        exists scale' : ColorScale,
          generateColorScale (withSteps options others) = Ok scale'
          /\ scale_get scale' s = scale_get scale s).
Proof.
  intros Hv. rewrite (generateColorScale_valid options Hv).
  eexists. split; [reflexivity|].
  pose (g := fun step =>
               stepColorValue step (baseHue options) (minChroma options)
                 (maxChroma options) (shiftEnabled options)).
  assert (Hget := fold_set_get g). assert (Hkeys := fold_set_keys g).
  cbv beta delta [g] in Hget, Hkeys.
  split; [|split; [|split]].
  - intros s. rewrite Hkeys. simpl. tauto.
  - intros s Hs. eexists. split.
    + destruct Hv as (Hh & H0 & H1 & H2 & Hsteps).
      rewrite Forall_forall in Hsteps. destruct (Hsteps s Hs) as [_ Hr].
      now apply stepColor_valid.
    + now apply Hget.
  - intros s Hs. now rewrite (proj2 (Hget _ [] s) Hs).
  - intros others s Hv' Hs Hs'.
    rewrite (generateColorScale_valid _ Hv').
    eexists. split; [reflexivity|].
    change (shiftEnabled (withSteps options others))
      with (shiftEnabled options).
    cbn [baseHue minChroma maxChroma steps withSteps].
    rewrite (proj1 (Hget others [] s) Hs').
    now rewrite (proj1 (Hget _ [] s) Hs).
Qed.

Lemma validStep_IZR (z : Z) : (0 <= z <= 1000)%Z -> validStep (IZR z).
Proof.
  intros [H0 H1]. split; [now exists z|].
  split; [now apply (IZR_le 0) | now apply (IZR_le z 1000)].
Qed.

Lemma grayOptions_valid (l : list Z) :
  Forall (fun z => (0 <= z <= 1000)%Z) l -> validOptions (grayOptions (map IZR l)).
Proof.
  intros H. unfold validOptions, grayOptions; simpl.
  repeat split; try lra.
  induction H; simpl; constructor; [now apply validStep_IZR | assumption].
Qed.

Lemma generateColorScale_throws (options : GenerateColorScaleOptions) :
  invalidOptions options ->
  exists msg : string,
    generateColorScale options = Throw msg
    /\ In msg [msg_baseHue; msg_chromaRange; msg_chromaOrder; msg_steps].
Proof.
  intros Hinv. unfold ColorScaleGenerator.generateColorScale. cbv zeta.
  destruct (num_lt (baseHue options) 0 || num_gt (baseHue options) 360) eqn:Eh.
  { exists msg_baseHue. split; [reflexivity | simpl; auto 10]. }
  apply orb_false_iff in Eh. rewrite num_lt_false, num_gt_false in Eh.
  destruct (num_lt (minChroma options) 0 || num_gt (minChroma options) 1
            || num_lt (maxChroma options) 0 || num_gt (maxChroma options) 1)
    eqn:Ec.
  { exists msg_chromaRange. split; [reflexivity | simpl; auto 10]. }
  rewrite !orb_false_iff, !num_lt_false, !num_gt_false in Ec.
  destruct (num_gt (minChroma options) (maxChroma options)) eqn:Eo.
  { exists msg_chromaOrder. split; [reflexivity | simpl; auto 10]. }
  rewrite num_gt_false in Eo.
  change (fun step : R =>
            num_lt step 0 || num_gt step 1000 || negb (Number_isInteger step))
    with stepRejected.
  assert (Hex : Exists (fun step => ~ validStep step) (steps options)).
  { unfold invalidOptions in Hinv.
    destruct Hinv as [H|[H|[H|[H|[H|[H|[H|H]]]]]]]; (lra || exact H). }
  rewrite (steps_check_true _ Hex).
  exists msg_steps. split; [reflexivity | simpl; auto 10].
Qed.

Lemma half_step_invalid : ~ validStep 500.5.
Proof.
  intros [[z Hz] _].
  assert (H1 : IZR 500 < IZR z) by (rewrite <- Hz; lra).
  assert (H2 : IZR z < IZR 501) by (rewrite <- Hz; lra).
  apply lt_IZR in H1, H2. lia.
Qed.

(** C6: [generateColorScale] checks its options first: when [baseHue] is
    outside [[0, 360]], a chroma is outside [[0, 1]],
    [minChroma > maxChroma], or a step is not an integer of [[0, 1000]], it
    throws one of its four validation errors and returns no scale; so it
    does for [baseHue = 361], for [minChroma = 0.6] with [maxChroma = 0.3],
    and for the steps [[500.5]]. *)
Theorem generateColorScale_rejects :
  (forall options : GenerateColorScaleOptions,
      invalidOptions options ->
      exists msg : string,
        generateColorScale options = Throw msg
        /\ In msg [msg_baseHue; msg_chromaRange; msg_chromaOrder; msg_steps])
  /\ (forall options : GenerateColorScaleOptions,
        options.(baseHue) = 361
        \/ (options.(minChroma) = 0.6 /\ options.(maxChroma) = 0.3)
        \/ options.(steps) = [500.5] ->
        exists msg : string, generateColorScale options = Throw msg).
Proof.
  split; [exact generateColorScale_throws|].
  intros options H.
  destruct (generateColorScale_throws options) as (msg & Hmsg & _).
  - unfold invalidOptions. destruct H as [H | [[H1 H2] | H]].
    + rewrite H. lra.
    + rewrite H1, H2. do 6 right. left. lra.
    + rewrite H. do 7 right. constructor. exact half_step_invalid.
  - now exists msg.
Qed.

End WithConverter.

Lemma generateColorScale_pointwise_witness :
  exists scale : ColorScale,
    generateColorScale grayConverter (grayOptions [0; 500; 1000]) = Ok scale
    /\ forall s : R, In s (scale_keys scale) <-> In s [0; 500; 1000].
Proof.
  destruct (generateColorScale_pointwise grayConverter (grayOptions [0; 500; 1000]))
    as (scale & Hgen & Hkeys & _).
  - apply (grayOptions_valid [0; 500; 1000]%Z).
    repeat constructor; lia.
  - exists scale. split; [exact Hgen | exact Hkeys].
Defined.

Lemma generateColorScale_rejects_witness :
  (exists msg : string,
      generateColorScale grayConverter
        {| baseHue := 361; minChroma := 0; maxChroma := 0;
           steps := [0; 500; 1000]; enableBezoldBruckeShift := None |}
      = Throw msg)
  /\ (exists msg : string,
        generateColorScale grayConverter
          {| baseHue := 0; minChroma := 0.6; maxChroma := 0.3;
             steps := [0; 500; 1000]; enableBezoldBruckeShift := None |}
        = Throw msg)
  /\ (exists msg : string,
        generateColorScale grayConverter
          {| baseHue := 0; minChroma := 0; maxChroma := 0;
             steps := [500.5]; enableBezoldBruckeShift := None |}
        = Throw msg).
Proof.
  destruct (generateColorScale_rejects grayConverter) as [_ H].
  repeat split; apply H; simpl.
  - left. reflexivity.
  - right. left. split; reflexivity.
  - right. right. reflexivity.
Defined.


(** ** The AA guarantee *)

Lemma scaleToContrast_500 (d : R) : d >= 500 -> 4.5 <= scaleToContrast d.
Proof.
  intros Hd. apply Rle_trans with (scaleToContrast 500).
  - unfold scaleToContrast. replace (3.04 * (500 / 1000)) with 1.52 by lra.
    apply exp_152_lower.
  - destruct Hd as [Hd | ->]; [left; apply scaleToContrast_increasing|]; lra.
Qed.

(** The target luminances of two steps have the contrast of their
    distance. *)
Lemma target_contrast (a b : R) :
  a <= b ->
  wcagContrast (1.05 / scaleToContrast a - 0.05)
    (1.05 / scaleToContrast b - 0.05)
  = scaleToContrast (b - a).
Proof.
  intros Hab. rewrite scaleToContrast_sub. unfold wcagContrast.
  assert (Ha : 0 < scaleToContrast a) by apply exp_pos.
  assert (Hb : 0 < scaleToContrast b) by apply exp_pos.
  assert (Hle : scaleToContrast a <= scaleToContrast b).
  { destruct Hab as [Hab | ->]; [left; now apply scaleToContrast_increasing|lra]. }
  set (ca := scaleToContrast a) in *. set (cb := scaleToContrast b) in *.
  assert (Hinv : / cb <= / ca) by (apply Rinv_le_contravar; assumption).
  rewrite Rmax_left, Rmin_right by (unfold Rdiv; lra).
  field. lra.
Qed.

Section FailingInput.

Variable Color_okhsl_to_srgb : triple -> triple.

(** C1, the code at a failing input: for the violet scale with steps [500]
    and [1000] the target luminances have a WCAG contrast of at least
    [4.5], and the lightness that reaches the converter is computed from
    them alone: the violet colours, of hue [292.5] and saturation [0.967] at
    step [500] and of hue [290] and saturation [0.4] at step [1000], get the
    very lightness of the grays of the same steps. *)
Theorem aa_failing_input :
  exists (Y500 Y1000 : R) (scale gray : ColorScale),
    targetLuminance 500 = Some Y500
    /\ targetLuminance 1000 = Some Y1000
    /\ 4.5 <= wcagContrast Y500 Y1000
    /\ generateColorScale Color_okhsl_to_srgb violetOptions = Ok scale
    /\ scale_get scale 500
       = Some (okhslToSrgb Color_okhsl_to_srgb
                 (292.5, 0.967, yToOkhslLightness Y500))
    /\ scale_get scale 1000
       = Some (okhslToSrgb Color_okhsl_to_srgb
                 (290, 0.4, yToOkhslLightness Y1000))
    /\ generateColorScale Color_okhsl_to_srgb (grayOptions [500; 1000])
       = Ok gray
    /\ scale_get gray 500
       = Some (okhslToSrgb Color_okhsl_to_srgb
                 (0, 0, yToOkhslLightness Y500))
    /\ scale_get gray 1000
       = Some (okhslToSrgb Color_okhsl_to_srgb
                 (0, 0, yToOkhslLightness Y1000)).
Proof.
  assert (Hsteps : Forall validStep [500; 1000]).
  { repeat (apply Forall_cons; [apply validStep_IZR; lia|]). apply Forall_nil. }
  assert (Hv : validOptions violetOptions).
  { unfold validOptions, violetOptions; simpl.
    split; [lra|]. split; [lra|]. split; [lra|]. split; [lra|]. exact Hsteps. }
  assert (Hg : validOptions (grayOptions [500; 1000])).
  { unfold validOptions, grayOptions; simpl.
    split; [lra|]. split; [lra|]. split; [lra|]. split; [lra|]. exact Hsteps. }
  assert (Hin5 : In 500 [500; 1000]) by (simpl; auto).
  assert (Hin10 : In 1000 [500; 1000]) by (simpl; auto).
  assert (H290 : num_eq 290 0 = false) by (apply num_eq_false; lra).
  assert (H0 : num_eq 0 0 = true) by (now apply num_eq_true).
  exists (1.05 / scaleToContrast 500 - 0.05),
         (1.05 / scaleToContrast 1000 - 0.05).
  rewrite (generateColorScale_valid _ _ Hv), (generateColorScale_valid _ _ Hg).
  eexists; eexists.
  split; [apply targetLuminance_valid; lra|].
  split; [apply targetLuminance_valid; lra|].
  split.
  { rewrite target_contrast by lra. apply scaleToContrast_500. lra. }
  split; [reflexivity|].
  pose (gv := fun step =>
                stepColorValue Color_okhsl_to_srgb step (baseHue violetOptions)
                  (minChroma violetOptions) (maxChroma violetOptions)
                  (shiftEnabled violetOptions)).
  pose (gg := fun step =>
                stepColorValue Color_okhsl_to_srgb step
                  (baseHue (grayOptions [500; 1000]))
                  (minChroma (grayOptions [500; 1000]))
                  (maxChroma (grayOptions [500; 1000]))
                  (shiftEnabled (grayOptions [500; 1000]))).
  assert (Hgv := fold_set_get gv [500; 1000] []).
  assert (Hgg := fold_set_get gg [500; 1000] []).
  cbv beta delta [gv gg] in Hgv, Hgg.
  assert (Ev5 : stepColorValue Color_okhsl_to_srgb 500 290 0.4 0.967 true
                = okhslToSrgb Color_okhsl_to_srgb
                    (292.5, 0.967,
                     yToOkhslLightness (1.05 / scaleToContrast 500 - 0.05))).
  { unfold stepColorValue. rewrite H290. cbn [orb negb].
    replace (290 + 5 * (1 - 500 / 1000)) with 292.5 by lra.
    replace (-4 * (0.967 - 0.4) * (500 / 1000) ^ 2
             + 4 * (0.967 - 0.4) * (500 / 1000) + 0.4) with 0.967 by lra.
    reflexivity. }
  assert (Ev10 : stepColorValue Color_okhsl_to_srgb 1000 290 0.4 0.967 true
                 = okhslToSrgb Color_okhsl_to_srgb
                     (290, 0.4,
                      yToOkhslLightness (1.05 / scaleToContrast 1000 - 0.05))).
  { unfold stepColorValue. rewrite H290. cbn [orb negb].
    replace (290 + 5 * (1 - 1000 / 1000)) with 290 by lra.
    replace (-4 * (0.967 - 0.4) * (1000 / 1000) ^ 2
             + 4 * (0.967 - 0.4) * (1000 / 1000) + 0.4) with 0.4 by lra.
    reflexivity. }
  assert (Eg : forall step,
             stepColorValue Color_okhsl_to_srgb step 0 0 0 true
             = okhslToSrgb Color_okhsl_to_srgb
                 (0, 0,
                  yToOkhslLightness (1.05 / scaleToContrast step - 0.05))).
  { intros step. unfold stepColorValue. rewrite H0. cbn [orb].
    replace (-4 * (0 - 0) * (step / 1000) ^ 2
             + 4 * (0 - 0) * (step / 1000) + 0) with 0 by lra.
    reflexivity. }
  split.
  { change (steps violetOptions) with [500; 1000].
    rewrite (proj1 (Hgv 500) Hin5). f_equal. exact Ev5. }
  split.
  { change (steps violetOptions) with [500; 1000].
    rewrite (proj1 (Hgv 1000) Hin10). f_equal. exact Ev10. }
  split; [reflexivity|].
  split.
  { change (steps (grayOptions [500; 1000])) with [500; 1000].
    rewrite (proj1 (Hgg 500) Hin5). f_equal. apply Eg. }
  change (steps (grayOptions [500; 1000])) with [500; 1000].
  rewrite (proj1 (Hgg 1000) Hin10). f_equal. apply Eg.
Qed.

End FailingInput.

(** *** The inverse of the toe *)

Lemma toe_inv_toe (L : R) : 0 <= L <= 1 -> toe_inv (toe L) = L.
Proof.
  intros HL. assert (Ht := toe_range L HL).
  assert (Hk := k_3_bounds).
  assert (Hrad := toe_radicand_nonneg L (proj1 HL)).
  assert (Hqq := sqrt_sqrt _ Hrad).
  unfold toe_inv. unfold toe in *. cbv zeta in *.
  set (q := sqrt ((k_3 * L - k_1) * (k_3 * L - k_1) + 4 * k_2 * k_3 * L)) in *.
  set (l := 0.5 * (k_3 * L - k_1 + q)) in *.
  assert (Hq : q = 2 * l - (k_3 * L - k_1)) by (unfold l; lra).
  assert (Hnum : l * l + k_1 * l = L * (k_3 * (l + k_2))).
  { rewrite Hq in Hqq. unfold k_2 in *. nra. }
  rewrite Hnum. field. unfold k_2. nra.
Qed.

End GeneratorProperties.

(** * Further properties of the pipeline *)

(** ** Bounds on quotients *)

Section ContrastLaws.

Import ContrastModel ColorScaleGenerator.

Lemma div_le_bound (a c d : R) : 0 < d -> a <= c * d -> a / d <= c.
Proof.
  intros Hd H. apply Rmult_le_reg_r with d; [assumption|].
  unfold Rdiv. rewrite Rmult_assoc, Rinv_l by lra. lra.
Qed.

Lemma div_lt_bound (a c d : R) : 0 < d -> a < c * d -> a / d < c.
Proof.
  intros Hd H. apply Rmult_lt_reg_r with d; [assumption|].
  unfold Rdiv. rewrite Rmult_assoc, Rinv_l by lra. lra.
Qed.

Lemma div_ge_bound (a c d : R) : 0 < d -> c * d <= a -> c <= a / d.
Proof.
  intros Hd H. apply Rmult_le_reg_r with d; [assumption|].
  unfold Rdiv. rewrite Rmult_assoc, Rinv_l by lra. lra.
Qed.

Lemma div_mult_cancel (a d : R) : 0 < d -> a / d * d = a.
Proof. intros Hd. field. lra. Qed.

End ContrastLaws.

(** ** Target luminance and lightness along the scale *)

Section AlongTheScale.

Import ContrastModel PerceptualLightnessMapper ColorScaleGenerator.

(** The same eleven squarings, read with their last constant. *)
Lemma exp_304_below : exp 3.04 <= 20.96.
Proof.
  replace 3.04 with (2 * (2 * (2 * (2 * (2 * (2 * (2 * (2 * (2 * (2 * (2 *
    (19 / 12800)))))))))))) by lra.
  apply exp_double_le with 4.577391263019529; [|lra].
  apply exp_double_le with 2.139483877719; [|lra].
  apply exp_double_le with 1.462697466231141; [|lra].
  apply exp_double_le with 1.209420301727708; [|lra].
  apply exp_double_le with 1.099736469217834; [|lra].
  apply exp_double_le with 1.04868320727369; [|lra].
  apply exp_double_le with 1.024052345963667; [|lra].
  apply exp_double_le with 1.01195471537202; [|lra].
  apply exp_double_le with 1.005959599274255; [|lra].
  apply exp_double_le with 1.002975373214245; [|lra].
  apply exp_double_le with 1.001486581644629; [|lra].
  eapply Rle_trans; [apply exp_below_inv; lra|].
  replace (1 - 19 / 12800) with (12781 / 12800) by lra.
  rewrite Rinv_div. lra.
Qed.

Lemma scaleToContrast_below (step : R) :
  step <= 1000 -> scaleToContrast step <= 20.96.
Proof.
  intros H. apply Rle_trans with (scaleToContrast 1000).
  - destruct H as [H | ->]; [left; now apply scaleToContrast_increasing | lra].
  - unfold scaleToContrast. replace (3.04 * (1000 / 1000)) with 3.04 by lra.
    apply exp_304_below.
Qed.

Lemma target_positive (step : R) :
  0 <= step <= 1000 -> 0 < 1.05 / scaleToContrast step - 0.05.
Proof.
  intros Hs. assert (Hc := scaleToContrast_range step Hs).
  assert (Hb := scaleToContrast_below step (proj2 Hs)).
  assert (0.0500001 <= 1.05 / scaleToContrast step); [|lra].
  apply div_ge_bound; lra.
Qed.

Lemma target_decreasing (a b : R) :
  a < b ->
  1.05 / scaleToContrast b - 0.05 < 1.05 / scaleToContrast a - 0.05.
Proof.
  intros Hab. assert (Hlt := scaleToContrast_increasing a b Hab).
  assert (Ha : 0 < scaleToContrast a) by apply exp_pos.
  assert (/ scaleToContrast b < / scaleToContrast a)
    by (apply Rinv_lt_contravar; [apply Rmult_lt_0_compat|]; lra).
  unfold Rdiv. lra.
Qed.

(** X3: along the scale the target luminance falls strictly from white:
    it is [1] at step [0], strictly decreasing in the step, and still
    strictly positive at step [1000], so no step is pure black. *)
Theorem targetLuminance_decreasing (a b : R) :
  0 <= a -> a < b -> b <= 1000 ->
  targetLuminance 0 = Some 1
  /\ exists Ya Yb : R,
      targetLuminance a = Some Ya /\ targetLuminance b = Some Yb
      /\ 0 < Yb /\ Yb < Ya /\ Ya <= 1.
Proof.
  intros H0 Hab Hb. split.
  - rewrite targetLuminance_valid by lra. rewrite scaleToContrast_0.
    f_equal. lra.
  - rewrite !targetLuminance_valid by lra.
    eexists; eexists. split; [reflexivity|]. split; [reflexivity|].
    split; [apply target_positive; lra|].
    split; [now apply target_decreasing|].
    apply (targetLuminance_range a). lra.
Qed.

Lemma targetLuminance_decreasing_witness :
  exists Ya Yb : R,
    targetLuminance 0 = Some Ya /\ targetLuminance 1000 = Some Yb
    /\ 0 < Yb /\ Yb < Ya /\ Ya <= 1.
Proof. apply (targetLuminance_decreasing 0 1000); lra. Defined.

(** X4: the contrast law of the scale, up to rounding: the WCAG contrast
    between the target luminances of two steps [a <= b] is
    [scaleToContrast (b - a)], a function of their distance alone, and the
    contrast of a step against white is [scaleToContrast] of the step. *)
Theorem target_contrast_law (a b : R) :
  0 <= a -> a <= b -> b <= 1000 ->
  exists Ya Yb : R,
    targetLuminance a = Some Ya /\ targetLuminance b = Some Yb
    /\ Rabs (wcagContrast Ya Yb - scaleToContrast (b - a))
       <= roundingTolerance
    /\ Rabs (wcagContrast 1 Yb - scaleToContrast b) <= roundingTolerance.
Proof.
  intros H0 Hab Hb. rewrite !targetLuminance_valid by lra.
  assert (Htol : 0 <= roundingTolerance) by (unfold roundingTolerance; lra).
  eexists; eexists. split; [reflexivity|]. split; [reflexivity|].
  split.
  - rewrite target_contrast by assumption.
    now rewrite Rminus_diag, Rabs_R0.
  - assert (H := target_contrast 0 b). rewrite scaleToContrast_0 in H.
    replace (1.05 / 1 - 0.05) with 1 in H by lra.
    replace (b - 0) with b in H by lra. rewrite H by lra.
    now rewrite Rminus_diag, Rabs_R0.
Qed.

Lemma target_contrast_law_witness :
  exists Ya Yb : R,
    targetLuminance 100 = Some Ya /\ targetLuminance 400 = Some Yb
    /\ Rabs (wcagContrast Ya Yb - scaleToContrast (400 - 100))
       <= roundingTolerance
    /\ Rabs (wcagContrast 1 Yb - scaleToContrast 400) <= roundingTolerance.
Proof. apply (target_contrast_law 100 400); lra. Defined.

(** X22: the AA guarantee holds for the target luminances: two steps of
    the scale at least [500] apart have target luminances with a WCAG
    contrast of at least [4.5]. *)
Theorem target_contrast_aa (a b : R) :
  0 <= a -> b <= 1000 -> b - a >= 500 ->
  exists Ya Yb : R,
    targetLuminance a = Some Ya /\ targetLuminance b = Some Yb
    /\ 4.5 <= wcagContrast Ya Yb.
Proof.
  intros H0 Hb Hd. rewrite !targetLuminance_valid by lra.
  eexists; eexists. split; [reflexivity|]. split; [reflexivity|].
  rewrite target_contrast by lra. now apply scaleToContrast_500.
Qed.

Lemma target_contrast_aa_witness :
  exists Ya Yb : R,
    targetLuminance 398 = Some Ya /\ targetLuminance 930 = Some Yb
    /\ 4.5 <= wcagContrast Ya Yb.
Proof. apply (target_contrast_aa 398 930); lra. Defined.

(** *** Monotonicity of the lightness mapping *)

Lemma cbrt_increasing (x y : R) : 0 <= x -> x < y -> cbrt x < cbrt y.
Proof.
  intros Hx Hxy. destruct (Rlt_dec (cbrt x) (cbrt y)) as [|Hn]; [assumption|].
  exfalso. assert (Hle : cbrt y <= cbrt x) by lra.
  assert (Hp : cbrt y ^ 3 <= cbrt x ^ 3).
  { apply pow_incr. split; [apply cbrt_nonneg; lra | assumption]. }
  rewrite !cbrt_cube in Hp by lra. lra.
Qed.

Lemma whiteLightness_below : whiteLightness <= 0.9999996.
Proof.
  unfold whiteLightness, yToOklabLightness.
  assert (Hw := clampedLMS_white).
  destruct (clampedLMS 1) as [[l m] s]. destruct Hw as (Hl & Hm & Hs).
  unfold M2, row_dot.
  assert (cbrt l <= 0.999964) by (apply cbrt_le_cube; lra).
  assert (cbrt m <= 1.000009) by (apply cbrt_le_cube; lra).
  assert (1 <= cbrt s) by (apply cbrt_ge_cube; lra).
  lra.
Qed.

Lemma div_le_cross (a b d1 d2 : R) :
  0 < d1 -> 0 < d2 -> a * d2 <= b * d1 -> a / d1 <= b / d2.
Proof.
  intros H1 H2 H. apply Rmult_le_reg_r with (d1 * d2).
  - now apply Rmult_lt_0_compat.
  - replace (a / d1 * (d1 * d2)) with (a * d2) by (field; lra).
    replace (b / d2 * (d1 * d2)) with (b * d1) by (field; lra).
    assumption.
Qed.

Lemma toe_inv_monotone (l1 l2 : R) :
  0 <= l1 -> l1 <= l2 -> toe_inv l1 <= toe_inv l2.
Proof.
  intros H1 H12. unfold toe_inv.
  assert (Hk := k_3_bounds).
  assert (Hk1 : 0 <= k_1) by (unfold k_1; lra).
  assert (Hk2 : 0 < k_2) by (unfold k_2; lra).
  apply div_le_cross.
  - apply Rmult_lt_0_compat; lra.
  - apply Rmult_lt_0_compat; lra.
  - assert (Hfac :
      (l2 * l2 + k_1 * l2) * (k_3 * (l1 + k_2))
      - (l1 * l1 + k_1 * l1) * (k_3 * (l2 + k_2))
      = k_3 * ((l2 - l1) * (l1 * l2 + k_2 * (l1 + l2) + k_1 * k_2)))
      by ring.
    assert (0 <= l1 * l2) by (apply Rmult_le_pos; lra).
    assert (0 <= k_2 * (l1 + l2)) by (apply Rmult_le_pos; lra).
    assert (0 <= k_1 * k_2) by (apply Rmult_le_pos; lra).
    assert (0 <= k_3 * ((l2 - l1) * (l1 * l2 + k_2 * (l1 + l2) + k_1 * k_2))).
    { apply Rmult_le_pos; [lra|]. apply Rmult_le_pos; lra. }
    lra.
Qed.

Lemma toe_increasing (L1 L2 : R) :
  0 <= L1 -> L1 < L2 -> L2 <= 1 -> toe L1 < toe L2.
Proof.
  intros H1 H12 H2.
  destruct (Rlt_dec (toe L1) (toe L2)) as [|Hn]; [assumption|].
  exfalso. assert (Hle : toe L2 <= toe L1) by lra.
  assert (Ht2 := toe_range L2). assert (Ht1 := toe_range L1).
  assert (Hm := toe_inv_monotone (toe L2) (toe L1)).
  rewrite !toe_inv_toe in Hm by lra. lra.
Qed.

Lemma yToOkhslLightness_strict (x y : R) :
  0 <= x -> x < y -> y <= 1 -> yToOkhslLightness x < yToOkhslLightness y.
Proof.
  intros Hx Hxy Hy. unfold yToOkhslLightness.
  assert (HK := whiteLightness_bounds).
  assert (Hc := cbrt_increasing x y Hx Hxy).
  apply toe_increasing.
  - apply yToOklabLightness_range; lra.
  - rewrite !yToOklabLightness_cbrt by lra. nra.
  - apply yToOklabLightness_range; lra.
Qed.

Lemma yToOkhslLightness_0 : yToOkhslLightness 0 = 0.
Proof.
  unfold yToOkhslLightness. rewrite yToOklabLightness_cbrt by lra.
  rewrite cbrt_0, Rmult_0_r. apply toe_0.
Qed.

Lemma yToOkhslLightness_below_1 (Y : R) :
  0 <= Y <= 1 -> yToOkhslLightness Y < 1.
Proof.
  intros HY. unfold yToOkhslLightness. rewrite <- toe_1.
  assert (HK := whiteLightness_bounds). assert (HKb := whiteLightness_below).
  assert (0 <= cbrt Y) by (apply cbrt_nonneg; lra).
  assert (cbrt Y <= 1) by (apply cbrt_le_cube; lra).
  rewrite yToOklabLightness_cbrt by lra.
  apply toe_increasing; nra.
Qed.

(** X5: [yToOkhslLightness] is strictly increasing on the luminances
    [[0, 1]], starts at [0] for black and stays strictly below [1], also
    for white. *)
Theorem yToOkhslLightness_increasing (x y : R) :
  0 <= x -> x < y -> y <= 1 ->
  yToOkhslLightness 0 = 0
  /\ yToOkhslLightness x < yToOkhslLightness y
  /\ yToOkhslLightness y < 1.
Proof.
  intros Hx Hxy Hy.
  split; [apply yToOkhslLightness_0|].
  split; [now apply yToOkhslLightness_strict|].
  apply yToOkhslLightness_below_1. lra.
Qed.

Lemma yToOkhslLightness_increasing_witness :
  yToOkhslLightness 0.18 < yToOkhslLightness 1 /\ yToOkhslLightness 1 < 1.
Proof. apply (yToOkhslLightness_increasing 0.18 1); lra. Defined.

(** X6: [computeLightness] is strictly decreasing in the step: a higher
    step is a darker colour, and every lightness of the scale lies strictly
    between [0] and [1]. *)
Theorem computeLightness_decreasing (a b : R) :
  0 <= a -> a < b -> b <= 1000 ->
  exists la lb : R,
    computeLightness a = Ok la /\ computeLightness b = Ok lb
    /\ 0 < lb /\ lb < la /\ la < 1.
Proof.
  intros H0 Hab Hb. rewrite !computeLightness_valid by lra.
  eexists; eexists. split; [reflexivity|]. split; [reflexivity|].
  assert (Hra := targetLuminance_range a). assert (Hrb := targetLuminance_range b).
  assert (Hpb := target_positive b). assert (Hd := target_decreasing a b Hab).
  split; [|split].
  - rewrite <- yToOkhslLightness_0. apply yToOkhslLightness_strict; lra.
  - apply yToOkhslLightness_strict; lra.
  - apply yToOkhslLightness_below_1. lra.
Qed.

Lemma computeLightness_decreasing_witness :
  exists la lb : R,
    computeLightness 0 = Ok la /\ computeLightness 1000 = Ok lb
    /\ 0 < lb /\ lb < la /\ la < 1.
Proof. apply (computeLightness_decreasing 0 1000); lra. Defined.

(** X7: a luminance that is zero or negative has all three cone responses
    clamped to [0], so its Oklab and OKHSL lightness are both [0]. *)
Theorem yToOkhslLightness_nonpositive (inputY : R) :
  inputY <= 0 ->
  clampedLMS inputY = (0, 0, 0)
  /\ yToOklabLightness inputY = 0
  /\ yToOkhslLightness inputY = 0.
Proof.
  intros HY.
  assert (Hlms : clampedLMS inputY = (0, 0, 0)).
  { unfold clampedLMS, M1, row_dot. cbv zeta beta iota.
    rewrite !Rmax_left by lra. reflexivity. }
  assert (HL : yToOklabLightness inputY = 0).
  { unfold yToOklabLightness. rewrite Hlms. unfold M2, row_dot.
    rewrite cbrt_0. ring. }
  split; [exact Hlms|]. split; [exact HL|].
  unfold yToOkhslLightness. rewrite HL. apply toe_0.
Qed.

Lemma yToOkhslLightness_nonpositive_witness : yToOkhslLightness (-1) = 0.
Proof. apply (yToOkhslLightness_nonpositive (-1)). lra. Defined.

End AlongTheScale.

(** ** The curve functions *)

Section CurveBehaviour.

Import ScaleCurveFunctions.

Lemma step_guard_true (step : R) :
  step < 0 \/ step > 1000 ->
  num_lt (step / 1000) 0 || num_gt (step / 1000) 1 = true.
Proof.
  intros [H | H]; apply orb_true_iff;
    [left; apply num_lt_true | right; apply num_gt_true]; lra.
Qed.

Lemma step_guard_cases (step : R) :
  num_lt (step / 1000) 0 || num_gt (step / 1000) 1 = true
  \/ 0 <= step <= 1000.
Proof.
  destruct (Rlt_dec step 0); [left; apply step_guard_true; lra|].
  destruct (Rlt_dec 1000 step); [left; apply step_guard_true; lra|].
  right. lra.
Qed.

Lemma chroma_range_guard_true (minChroma maxChroma : R) :
  minChroma < 0 \/ minChroma > 1 \/ maxChroma < 0 \/ maxChroma > 1 ->
  num_lt minChroma 0 || num_gt minChroma 1
  || num_lt maxChroma 0 || num_gt maxChroma 1 = true.
Proof.
  rewrite !orb_true_iff, !num_lt_true, !num_gt_true. tauto.
Qed.

Lemma chroma_range_guard_false (minChroma maxChroma : R) :
  0 <= minChroma <= 1 -> 0 <= maxChroma <= 1 ->
  num_lt minChroma 0 || num_gt minChroma 1
  || num_lt maxChroma 0 || num_gt maxChroma 1 = false.
Proof.
  intros H1 H2. rewrite !orb_false_iff, !num_lt_false, !num_gt_false. lra.
Qed.

(** X9: [computeChroma] throws exactly when an argument is out of range, and
    reports the first failed check: the step before the chroma range, the
    chroma range before the chroma order. *)
Theorem computeChroma_errors (step minChroma maxChroma : R) :
  (step < 0 \/ step > 1000 ->
   computeChroma step minChroma maxChroma
   = Throw "step must produce a normalized value between 0 and 1")
  /\ (0 <= step <= 1000 ->
      minChroma < 0 \/ minChroma > 1 \/ maxChroma < 0 \/ maxChroma > 1 ->
      computeChroma step minChroma maxChroma
      = Throw "Chroma values must be numbers between 0 and 1")
  /\ (0 <= step <= 1000 -> 0 <= minChroma <= 1 -> 0 <= maxChroma <= 1 ->
      minChroma > maxChroma ->
      computeChroma step minChroma maxChroma
      = Throw "minChroma must be less than or equal to maxChroma")
  /\ ((exists c : R, computeChroma step minChroma maxChroma = Ok c) <->
      0 <= step <= 1000
      /\ 0 <= minChroma /\ minChroma <= maxChroma /\ maxChroma <= 1).
Proof.
  split; [|split; [|split]].
  - intros H. unfold computeChroma. cbv zeta.
    now rewrite (step_guard_true step H).
  - intros Hs H. unfold computeChroma. cbv zeta.
    now rewrite (step_guard step Hs), (chroma_range_guard_true _ _ H).
  - intros Hs H1 H2 H. unfold computeChroma. cbv zeta.
    rewrite (step_guard step Hs), (chroma_range_guard_false _ _ H1 H2).
    now replace (num_gt minChroma maxChroma) with true
      by (symmetry; now apply num_gt_true).
  - split.
    + intros [c Hc]. unfold computeChroma in Hc. cbv zeta in Hc.
      destruct (step_guard_cases step) as [E | Hs]; [now rewrite E in Hc|].
      rewrite (step_guard step Hs) in Hc.
      destruct (num_lt minChroma 0 || num_gt minChroma 1
                || num_lt maxChroma 0 || num_gt maxChroma 1) eqn:Er;
        [discriminate|].
      destruct (num_gt minChroma maxChroma) eqn:Eo; [discriminate|].
      rewrite !orb_false_iff, !num_lt_false, !num_gt_false in Er.
      rewrite num_gt_false in Eo. lra.
    + intros (Hs & H0 & H1 & H2). eexists. now apply computeChroma_valid.
Qed.

Lemma computeChroma_errors_witness :
  computeChroma 1001 0 1
  = Throw "step must produce a normalized value between 0 and 1"
  /\ computeChroma 500 0.6 0.3
     = Throw "minChroma must be less than or equal to maxChroma".
Proof.
  split.
  - apply (computeChroma_errors 1001 0 1). right; lra.
  - apply (computeChroma_errors 500 0.6 0.3); lra.
Defined.

(** X10: for valid arguments the chroma is never below [minChroma] and,
    up to rounding, never above [maxChroma]; it does not fall as the step
    grows up to step [500] and does not rise after it; it is the constant
    [minChroma] when the two bounds are equal. *)
Theorem computeChroma_shape (s1 s2 minChroma maxChroma : R) :
  0 <= s1 -> s1 <= s2 -> s2 <= 1000 ->
  0 <= minChroma -> minChroma <= maxChroma -> maxChroma <= 1 ->
  exists c1 c2 : R,
    computeChroma s1 minChroma maxChroma = Ok c1
    /\ computeChroma s2 minChroma maxChroma = Ok c2
    /\ minChroma <= c1 <= maxChroma + roundingTolerance
    /\ (s2 <= 500 -> c1 <= c2)
    /\ (500 <= s1 -> c2 <= c1)
    /\ (minChroma = maxChroma -> c1 = minChroma).
Proof.
  intros H0 H12 H2 Hm Hmm HM.
  rewrite !computeChroma_valid by lra.
  eexists; eexists. split; [reflexivity|]. split; [reflexivity|].
  set (d := maxChroma - minChroma). assert (Hd : 0 <= d) by (unfold d; lra).
  set (t1 := s1 / 1000). set (t2 := s2 / 1000).
  assert (Ht1 : 0 <= t1 <= 1) by (unfold t1; lra).
  assert (Ht2 : t1 <= t2 <= 1) by (unfold t1, t2; lra).
  assert (Hform : forall t, -4 * d * t ^ 2 + 4 * d * t + minChroma
                            = minChroma + 4 * d * (t * (1 - t)))
    by (intros; ring).
  rewrite !Hform.
  assert (Hp1 : 0 <= t1 * (1 - t1)) by (apply Rmult_le_pos; lra).
  assert (Hq1 : t1 * (1 - t1) <= / 4).
  { assert (0 <= (2 * t1 - 1) * (2 * t1 - 1)) by apply Rle_0_sqr. lra. }
  assert (Hdp : 0 <= d * (t1 * (1 - t1))) by (apply Rmult_le_pos; assumption).
  assert (Hdq : d * (t1 * (1 - t1)) <= d * / 4)
    by (apply Rmult_le_compat_l; assumption).
  split; [unfold d, roundingTolerance in *; lra|].
  assert (Hdiff : t2 * (1 - t2) - t1 * (1 - t1) = (t2 - t1) * (1 - t1 - t2))
    by ring.
  split; [|split].
  - intros H5. assert (t2 <= / 2) by (unfold t2; lra).
    assert (0 <= (t2 - t1) * (1 - t1 - t2)) by (apply Rmult_le_pos; lra).
    assert (d * (t1 * (1 - t1)) <= d * (t2 * (1 - t2)))
      by (apply Rmult_le_compat_l; lra).
    lra.
  - intros H5. assert (/ 2 <= t1) by (unfold t1; lra).
    assert (0 <= (t2 - t1) * (t1 + t2 - 1)) by (apply Rmult_le_pos; lra).
    assert (d * (t2 * (1 - t2)) <= d * (t1 * (1 - t1)))
      by (apply Rmult_le_compat_l; lra).
    lra.
  - intros He. assert (d = 0) by (unfold d; lra). subst d. nra.
Qed.

Lemma computeChroma_shape_witness :
  exists c1 c2 : R,
    computeChroma 100 0.4 0.967 = Ok c1
    /\ computeChroma 400 0.4 0.967 = Ok c2
    /\ 0.4 <= c1 <= 0.967 + roundingTolerance
    /\ (400 <= 500 -> c1 <= c2)
    /\ (500 <= 100 -> c2 <= c1)
    /\ (0.4 = 0.967 -> c1 = 0.4).
Proof. apply (computeChroma_shape 100 400 0.4 0.967); lra. Defined.

(** X11: [computeHue] throws exactly when the step or the base hue is out
    of range, the step error first; on valid arguments the hue never rises
    with the step and the shift has vanished at step [1000]. *)
Theorem computeHue_errors (step baseHue : R) (enable : bool) :
  (step < 0 \/ step > 1000 ->
   computeHue step baseHue enable
   = Throw "step must produce a normalized value between 0 and 1")
  /\ (0 <= step <= 1000 -> baseHue < 0 \/ baseHue > 360 ->
      computeHue step baseHue enable
      = Throw "baseHue must be a number between 0 and 360")
  /\ ((exists h : R, computeHue step baseHue enable = Ok h) <->
      0 <= step <= 1000 /\ 0 <= baseHue <= 360)
  /\ (0 <= baseHue <= 360 -> computeHue 1000 baseHue enable = Ok baseHue)
  /\ (forall later : R,
        0 <= step -> step <= later -> later <= 1000 ->
        0 <= baseHue <= 360 ->
        exists h1 h2 : R,
          computeHue step baseHue enable = Ok h1
          /\ computeHue later baseHue enable = Ok h2 /\ h2 <= h1).
Proof.
  split; [|split; [|split; [|split]]].
  - intros H. unfold computeHue. cbv zeta. now rewrite (step_guard_true step H).
  - intros Hs H. unfold computeHue. cbv zeta. rewrite (step_guard step Hs).
    replace (num_lt baseHue 0 || num_gt baseHue 360) with true; [reflexivity|].
    symmetry. rewrite orb_true_iff, num_lt_true, num_gt_true. tauto.
  - split.
    + intros [h Hh]. unfold computeHue in Hh. cbv zeta in Hh.
      destruct (step_guard_cases step) as [E | Hs]; [now rewrite E in Hh|].
      rewrite (step_guard step Hs) in Hh.
      destruct (num_lt baseHue 0 || num_gt baseHue 360) eqn:Eh; [discriminate|].
      rewrite orb_false_iff, num_lt_false, num_gt_false in Eh. lra.
    + intros [Hs Hh]. eexists. now apply computeHue_valid.
  - intros Hh. rewrite computeHue_valid by lra.
    destruct (num_eq baseHue 0 || negb enable); f_equal. lra.
  - intros later H0 Hl H1 Hh. rewrite !computeHue_valid by lra.
    eexists; eexists. split; [reflexivity|]. split; [reflexivity|].
    destruct (num_eq baseHue 0 || negb enable); lra.
Qed.

Lemma computeHue_errors_witness :
  computeHue (-1) 400 true
  = Throw "step must produce a normalized value between 0 and 1"
  /\ computeHue 500 400 true
     = Throw "baseHue must be a number between 0 and 360"
  /\ computeHue 1000 256 true = Ok 256.
Proof.
  split; [|split].
  - apply (computeHue_errors (-1) 400 true). left; lra.
  - apply (computeHue_errors 500 400 true); lra.
  - apply (computeHue_errors 1000 256 true); lra.
Defined.

End CurveBehaviour.

(** ** The generator *)

Section GeneratorBehaviour.

Import ContrastModel PerceptualLightnessMapper ScaleCurveFunctions.
Import ColorScaleGenerator.

Lemma scale_set_NoDup (scale : ColorScale) (k : R) (v : triple) :
  NoDup (scale_keys scale) -> NoDup (scale_keys (scale_set scale k v)).
Proof.
  induction scale as [|[k0 v0] rest IH]; simpl; intros Hnd.
  - constructor; [intros [] | constructor].
  - destruct (num_eq k0 k) eqn:E; simpl; [exact Hnd|].
    apply num_eq_false in E. inversion Hnd as [|x xs Hnotin Hrest]; subst.
    constructor; [|now apply IH].
    fold (scale_keys (scale_set rest k v)). rewrite scale_keys_set.
    intros [H | H]; [congruence | exact (Hnotin H)].
Qed.

Lemma scale_set_length (scale : ColorScale) (k : R) (v : triple) :
  (List.length (scale_set scale k v) <= S (List.length scale))%nat.
Proof.
  induction scale as [|[k0 v0] rest IH]; simpl; [lia|].
  destruct (num_eq k0 k); simpl; lia.
Qed.

Lemma fold_set_NoDup (g : R -> triple) (l : list R) :
  forall acc : ColorScale,
    NoDup (scale_keys acc) ->
    NoDup (scale_keys
             (fold_left (fun sc st => scale_set sc st (g st)) l acc)).
Proof.
  induction l as [|x l IH]; intros acc Hacc; simpl; [assumption|].
  apply IH. now apply scale_set_NoDup.
Qed.

Lemma fold_set_length (g : R -> triple) (l : list R) :
  forall acc : ColorScale,
    (List.length (fold_left (fun sc st => scale_set sc st (g st)) l acc)
     <= List.length l + List.length acc)%nat.
Proof.
  induction l as [|x l IH]; intros acc; simpl; [lia|].
  specialize (IH (scale_set acc x (g x))).
  assert (H := scale_set_length acc x (g x)). lia.
Qed.

Lemma fold_set_get_total (g : R -> triple) (l : list R) (k : R) :
  scale_get (fold_left (fun sc st => scale_set sc st (g st)) l []) k
  = if in_dec Req_dec_T k l then Some (g k) else None.
Proof.
  destruct (fold_set_get g l [] k) as [Hin Hout].
  destruct (in_dec Req_dec_T k l) as [H | H]; [now apply Hin | now apply Hout].
Qed.

Section AnyConverter.

Variable Color_okhsl_to_srgb : triple -> triple.

Local Abbreviation generateColorScale :=
  (generateColorScale Color_okhsl_to_srgb).

(** X12: [generateColorScale] returns a scale exactly for the valid
    options, an empty scale for an empty array of steps, and otherwise
    throws the error of the first failed check, in the order base hue,
    chroma range, chroma order, steps. *)
Theorem generateColorScale_outcome (options : GenerateColorScaleOptions) :
  ((exists scale : ColorScale, generateColorScale options = Ok scale) <->
   validOptions options)
  /\ (validOptions options -> options.(steps) = [] ->
      generateColorScale options = Ok [])
  /\ (options.(baseHue) < 0 \/ options.(baseHue) > 360 ->
      generateColorScale options = Throw msg_baseHue)
  /\ (0 <= options.(baseHue) <= 360 ->
      options.(minChroma) < 0 \/ options.(minChroma) > 1
      \/ options.(maxChroma) < 0 \/ options.(maxChroma) > 1 ->
      generateColorScale options = Throw msg_chromaRange)
  /\ (0 <= options.(baseHue) <= 360 ->
      0 <= options.(minChroma) <= 1 -> 0 <= options.(maxChroma) <= 1 ->
      options.(minChroma) > options.(maxChroma) ->
      generateColorScale options = Throw msg_chromaOrder)
  /\ (0 <= options.(baseHue) <= 360 ->
      0 <= options.(minChroma) -> options.(minChroma) <= options.(maxChroma) ->
      options.(maxChroma) <= 1 ->
      Exists (fun step => ~ validStep step) options.(steps) ->
      generateColorScale options = Throw msg_steps).
Proof.
  split; [|split; [|split; [|split; [|split]]]].
  - split.
    + intros [scale Hs].
      destruct (Classical_Prop.classic (validOptions options)) as [Hv | Hn];
        [assumption|].
      apply invalidOptions_iff in Hn.
      destruct (generateColorScale_throws Color_okhsl_to_srgb options Hn)
        as (msg & Hm & _).
      congruence.
    + intros Hv. eexists. now apply generateColorScale_valid.
  - intros Hv He. rewrite generateColorScale_valid by assumption.
    now rewrite He.
  - intros H. unfold ColorScaleGenerator.generateColorScale. cbv zeta.
    replace (num_lt (baseHue options) 0 || num_gt (baseHue options) 360)
      with true; [reflexivity|].
    symmetry. rewrite orb_true_iff, num_lt_true, num_gt_true. tauto.
  - intros Hh H. unfold ColorScaleGenerator.generateColorScale. cbv zeta.
    now rewrite (hue_guard _ Hh), (chroma_range_guard_true _ _ H).
  - intros Hh H1 H2 H. unfold ColorScaleGenerator.generateColorScale. cbv zeta.
    rewrite (hue_guard _ Hh), (chroma_range_guard_false _ _ H1 H2).
    now replace (num_gt (minChroma options) (maxChroma options)) with true
      by (symmetry; now apply num_gt_true).
  - intros Hh H0 H1 H2 H. unfold ColorScaleGenerator.generateColorScale.
    cbv zeta. rewrite (hue_guard _ Hh).
    destruct (chroma_guard _ _ H0 H1 H2) as [-> ->].
    change (fun step : R =>
              num_lt step 0 || num_gt step 1000
              || negb (Number_isInteger step))
      with stepRejected.
    now rewrite (steps_check_true _ H).
Qed.

(** X13: the array of steps acts as a set: two arrays with the same
    members, in any order and with any repetitions, give scales that agree
    at every key; a scale has no key twice and no more entries than steps
    were requested. *)
Theorem generateColorScale_steps_as_set
    (options : GenerateColorScaleOptions) (l1 l2 : list R) :
  validOptions (withSteps options l1) ->
  (forall s : R, In s l1 <-> In s l2) ->
  exists scale1 scale2 : ColorScale,
    generateColorScale (withSteps options l1) = Ok scale1
    /\ generateColorScale (withSteps options l2) = Ok scale2
    /\ (forall s : R, scale_get scale1 s = scale_get scale2 s)
    /\ NoDup (scale_keys scale1)
    /\ (List.length scale1 <= List.length l1)%nat.
Proof.
  intros Hv Hsame.
  assert (Hv2 : validOptions (withSteps options l2)).
  { destruct Hv as (Hh & H0 & H1 & H2 & Hs).
    split; [exact Hh|]. split; [exact H0|]. split; [exact H1|].
    split; [exact H2|].
    simpl in *. rewrite Forall_forall in *. intros x Hx.
    apply Hs. apply Hsame. exact Hx. }
  rewrite (generateColorScale_valid _ _ Hv), (generateColorScale_valid _ _ Hv2).
  change (shiftEnabled (withSteps options l1)) with (shiftEnabled options).
  change (shiftEnabled (withSteps options l2)) with (shiftEnabled options).
  cbn [baseHue minChroma maxChroma steps withSteps].
  pose (g := fun step =>
               stepColorValue Color_okhsl_to_srgb step (baseHue options)
                 (minChroma options) (maxChroma options)
                 (shiftEnabled options)).
  assert (Hget := fold_set_get_total g).
  assert (Hnd := fold_set_NoDup g l1 [] (NoDup_nil R)).
  assert (Hlen := fold_set_length g l1 []).
  cbv beta delta [g] in Hget, Hnd, Hlen.
  eexists; eexists. split; [reflexivity|]. split; [reflexivity|].
  split; [|split].
  - intros s. rewrite !Hget.
    destruct (in_dec Req_dec_T s l1) as [H1 | H1];
      destruct (in_dec Req_dec_T s l2) as [H2 | H2]; try reflexivity.
    + exfalso. apply H2, Hsame, H1.
    + exfalso. apply H1, Hsame, H2.
  - exact Hnd.
  - simpl in Hlen. lia.
Qed.

End AnyConverter.

Lemma generateColorScale_outcome_witness :
  generateColorScale grayConverter (grayOptions []) = Ok []
  /\ generateColorScale grayConverter
       {| baseHue := 361; minChroma := 2; maxChroma := 0;
          steps := [500.5]; enableBezoldBruckeShift := None |}
     = Throw msg_baseHue.
Proof.
  split.
  - apply (generateColorScale_outcome grayConverter (grayOptions []));
      [|reflexivity].
    apply (grayOptions_valid []). constructor.
  - apply (generateColorScale_outcome grayConverter). simpl. right. lra.
Defined.

Lemma generateColorScale_steps_as_set_witness :
  exists scale1 scale2 : ColorScale,
    generateColorScale grayConverter
      (withSteps (grayOptions []) [0; 500; 500; 1000]) = Ok scale1
    /\ generateColorScale grayConverter
         (withSteps (grayOptions []) [1000; 0; 500]) = Ok scale2
    /\ (forall s : R, scale_get scale1 s = scale_get scale2 s)
    /\ NoDup (scale_keys scale1)
    /\ (List.length scale1 <= List.length [0; 500; 500; 1000])%nat.
Proof.
  apply (generateColorScale_steps_as_set grayConverter (grayOptions [])).
  - apply (grayOptions_valid [0; 500; 500; 1000]%Z). repeat constructor; lia.
  - intros s. simpl. tauto.
Defined.

(** X14: for valid arguments the OKHSL triple that a step hands to the
    converter does not depend on the converter, and it has its hue in
    [[baseHue, baseHue + 5]], its saturation not below [minChroma] and, up
    to rounding, not above [maxChroma], and its lightness strictly between
    [0] and [1]. *)
Theorem stepColor_hsl_domain
    (step baseHue minChroma maxChroma : R) (enable : bool) :
  0 <= step <= 1000 -> 0 <= baseHue <= 360 ->
  0 <= minChroma -> minChroma <= maxChroma -> maxChroma <= 1 ->
  exists h s l : R,
    baseHue <= h <= baseHue + 5
    /\ minChroma <= s <= maxChroma + roundingTolerance
    /\ 0 < l < 1
    /\ forall Color_okhsl_to_srgb : triple -> triple,
        stepColor Color_okhsl_to_srgb step baseHue minChroma maxChroma enable
        = Ok (okhslToSrgb Color_okhsl_to_srgb (h, s, l)).
Proof.
  intros Hs Hh H0 H1 H2.
  eexists; eexists; eexists.
  split; [|split; [|split]].
  4: { intros conv. rewrite stepColor_valid by assumption.
       unfold stepColorValue. reflexivity. }
  - destruct (num_eq baseHue 0 || negb enable); lra.
  - set (d := maxChroma - minChroma). assert (Hd : 0 <= d) by (unfold d; lra).
    set (t := step / 1000). assert (Ht : 0 <= t <= 1) by (unfold t; lra).
    replace (-4 * d * t ^ 2 + 4 * d * t + minChroma)
      with (minChroma + 4 * d * (t * (1 - t))) by ring.
    assert (Hp : 0 <= t * (1 - t)) by (apply Rmult_le_pos; lra).
    assert (Hq : t * (1 - t) <= / 4).
    { assert (0 <= (2 * t - 1) * (2 * t - 1)) by apply Rle_0_sqr. lra. }
    assert (0 <= d * (t * (1 - t))) by (apply Rmult_le_pos; assumption).
    assert (d * (t * (1 - t)) <= d * / 4)
      by (apply Rmult_le_compat_l; assumption).
    unfold d, roundingTolerance in *. lra.
  - assert (Hr := targetLuminance_range step Hs).
    assert (Hp := target_positive step Hs).
    split.
    + rewrite <- yToOkhslLightness_0. apply yToOkhslLightness_strict; lra.
    + apply yToOkhslLightness_below_1. lra.
Qed.

Lemma stepColor_hsl_domain_witness :
  exists h s l : R,
    256 <= h <= 256 + 5
    /\ 0.4 <= s <= 0.967 + roundingTolerance
    /\ 0 < l < 1
    /\ forall Color_okhsl_to_srgb : triple -> triple,
        stepColor Color_okhsl_to_srgb 398 256 0.4 0.967 true
        = Ok (okhslToSrgb Color_okhsl_to_srgb (h, s, l)).
Proof. apply (stepColor_hsl_domain 398 256 0.4 0.967 true); lra. Defined.

End GeneratorBehaviour.

(** ** Objects as maps *)

Section ObjectLaws.

Context {K V : Type} (key_eq : K -> K -> bool).
Hypothesis key_eq_spec : forall a b : K, key_eq a b = true <-> a = b.

Lemma key_eq_refl (k : K) : key_eq k k = true.
Proof. now apply key_eq_spec. Qed.

Lemma key_eq_diff (a b : K) : a <> b -> key_eq a b = false.
Proof.
  intros H. destruct (key_eq a b) eqn:E; [|reflexivity].
  apply key_eq_spec in E. contradiction.
Qed.

Lemma obj_get_set_same (o : list (K * V)) (k : K) (v : V) :
  obj_get key_eq (obj_set key_eq o k v) k = Some v.
Proof.
  induction o as [|[k' v'] rest IH]; simpl.
  - now rewrite key_eq_refl.
  - destruct (key_eq k' k) eqn:E; simpl; rewrite E; [reflexivity | exact IH].
Qed.

Lemma obj_get_set_other (o : list (K * V)) (k k' : K) (v : V) :
  k <> k' -> obj_get key_eq (obj_set key_eq o k v) k' = obj_get key_eq o k'.
Proof.
  intros Hne. induction o as [|[k0 v0] rest IH]; simpl.
  - now rewrite (key_eq_diff k k' Hne).
  - destruct (key_eq k0 k) eqn:E; simpl.
    + apply key_eq_spec in E. subst k0.
      now rewrite (key_eq_diff k k' Hne).
    + destruct (key_eq k0 k'); [reflexivity | exact IH].
Qed.

(** A loop that stores one value per entry of a list without repeated
    keys. *)
Lemma fold_obj_set_get {X : Type} (G : X -> V) (l : list (K * X)) :
  NoDup (map fst l) ->
  forall (acc : list (K * V)) (k : K),
    (forall x, In (k, x) l ->
       obj_get key_eq
         (fold_left (fun o e => obj_set key_eq o (fst e) (G (snd e))) l acc) k
       = Some (G x))
    /\ (~ In k (map fst l) ->
        obj_get key_eq
          (fold_left (fun o e => obj_set key_eq o (fst e) (G (snd e))) l acc) k
        = obj_get key_eq acc k).
Proof.
  induction l as [|[k0 x0] l IH]; intros Hnd acc k; simpl.
  - split; [contradiction | reflexivity].
  - inversion Hnd as [|? ? Hnotin Hrest]; subst.
    destruct (IH Hrest (obj_set key_eq acc k0 (G x0)) k) as [IHin IHout].
    split.
    + intros x [Heq | Hin].
      * injection Heq as -> ->. rewrite IHout by assumption.
        apply obj_get_set_same.
      * now apply IHin.
    + intros Hout. rewrite IHout by tauto.
      apply obj_get_set_other. tauto.
Qed.

End ObjectLaws.

(** ** The palette of the command line *)

Section PaletteBehaviour.

Import ColorScaleGenerator PaletteCli.

Lemma fold_left_pointwise {A B : Type} (f g : A -> B -> A) (l : list B) :
  (forall a b, f a b = g a b) ->
  forall a : A, fold_left f l a = fold_left g l a.
Proof.
  intros Hfg. induction l as [|x l IH]; intros a; simpl; [reflexivity|].
  now rewrite Hfg, IH.
Qed.

Lemma scale_get_some_in (scale : ColorScale) (s : R) (c : triple) :
  scale_get scale s = Some c -> In (s, c) scale.
Proof.
  induction scale as [|[k v] rest IH]; simpl; [discriminate|].
  destruct (num_eq k s) eqn:E.
  - apply num_eq_true in E. intros [= ->]. left. now subst.
  - intros H. right. now apply IH.
Qed.

Lemma scale_get_none_keys (scale : ColorScale) (s : R) :
  scale_get scale s = None -> ~ In s (scale_keys scale).
Proof.
  induction scale as [|[k v] rest IH]; simpl; [tauto|].
  destruct (num_eq k s) eqn:E; [discriminate|].
  apply num_eq_false in E. intros H [Hk | Hin]; [contradiction|].
  now apply (IH H).
Qed.

Section Collaborators.

Variable Color_okhsl_to_srgb : triple -> triple.
Variable Color_srgb_to_hex : triple -> string.

Local Abbreviation formatColor := (formatColor Color_srgb_to_hex).
Local Abbreviation formatScale := (formatScale Color_srgb_to_hex).
Local Abbreviation generatePalette :=
  (generatePalette Color_okhsl_to_srgb Color_srgb_to_hex).

Lemma formatScale_get (fmt : OutputFormat) (scale : ColorScale) (s : R) :
  NoDup (scale_keys scale) ->
  obj_get num_eq (formatScale fmt scale) s
  = option_map (formatColor fmt) (scale_get scale s).
Proof.
  intros Hnd. unfold PaletteCli.formatScale.
  rewrite (fold_left_pointwise _
             (fun o e => obj_set num_eq o (fst e) (formatColor fmt (snd e))))
    by (intros a [k v]; reflexivity).
  destruct (fold_obj_set_get num_eq num_eq_true (formatColor fmt) scale
              Hnd [] s) as [Hin Hout].
  destruct (scale_get scale s) as [c|] eqn:E; simpl.
  - apply Hin. now apply scale_get_some_in.
  - rewrite Hout; [reflexivity|]. now apply scale_get_none_keys.
Qed.

(** The closed form of the scale of one colour. *)
Lemma optionsFor_scale (config : ColorConfig.t) (def : ColorDefinition.t) :
  validOptions (optionsFor config def) ->
  generateColorScale Color_okhsl_to_srgb (optionsFor config def)
  = Ok (fold_left
          (fun scale step =>
             scale_set scale step
               (stepColorValue Color_okhsl_to_srgb step
                  (ColorDefinition.hue def) (ColorDefinition.minChroma def)
                  (ColorDefinition.maxChroma def) false))
          (ColorConfig.steps config) []).
Proof. intros Hv. now rewrite generateColorScale_valid. Qed.

Lemma generateColorScale_ok_valid (options : GenerateColorScaleOptions) :
  (exists scale, generateColorScale Color_okhsl_to_srgb options = Ok scale)
  <-> validOptions options.
Proof.
  split.
  - intros [scale Hs].
    destruct (Classical_Prop.classic (validOptions options)) as [Hv | Hn];
      [assumption|].
    apply invalidOptions_iff in Hn.
    destruct (generateColorScale_throws Color_okhsl_to_srgb options Hn)
      as (msg & Hm & _).
    congruence.
  - intros Hv. eexists. now apply generateColorScale_valid.
Qed.

Lemma generateColorScale_throw_msg
    (options : GenerateColorScaleOptions) (msg : string) :
  generateColorScale Color_okhsl_to_srgb options = Throw msg ->
  In msg [msg_baseHue; msg_chromaRange; msg_chromaOrder; msg_steps].
Proof.
  intros H.
  destruct (Classical_Prop.classic (validOptions options)) as [Hv | Hn].
  - rewrite generateColorScale_valid in H by assumption. discriminate.
  - apply invalidOptions_iff in Hn.
    destruct (generateColorScale_throws Color_okhsl_to_srgb options Hn)
      as (msg' & Hm & Hin).
    congruence.
Qed.

(** The outer loop of [generatePalette], from any palette built so far. *)
Lemma palette_loop (config : ColorConfig.t) (fmt : OutputFormat)
    (l : list (string * ColorDefinition.t)) :
  forall acc : Palette,
    let loop :=
      reduce
        (fun palette entry =>
           let '(colorName, colorDef) := entry in
           scale <- generateColorScale Color_okhsl_to_srgb
                      (optionsFor config colorDef) ;;
           Ok (obj_set String.eqb palette colorName (formatScale fmt scale)))
        l acc in
    (Forall (fun e => validOptions (optionsFor config (snd e))) l ->
     loop
     = Ok (fold_left
             (fun o e =>
                obj_set String.eqb o (fst e)
                  (formatScale fmt
                     (fold_left
                        (fun scale step =>
                           scale_set scale step
                             (stepColorValue Color_okhsl_to_srgb step
                                (ColorDefinition.hue (snd e))
                                (ColorDefinition.minChroma (snd e))
                                (ColorDefinition.maxChroma (snd e)) false))
                        (ColorConfig.steps config) [])))
             l acc))
    /\ ((exists palette, loop = Ok palette) ->
        Forall (fun e => validOptions (optionsFor config (snd e))) l)
    /\ (forall msg, loop = Throw msg ->
        In msg [msg_baseHue; msg_chromaRange; msg_chromaOrder; msg_steps]).
Proof.
  induction l as [|[name def] l IH]; intros acc; cbv zeta; simpl.
  - split; [reflexivity|]. split; [constructor | discriminate].
  - destruct (generateColorScale Color_okhsl_to_srgb (optionsFor config def))
      as [scale | err] eqn:E; simpl.
    + assert (Hv : validOptions (optionsFor config def))
        by (apply generateColorScale_ok_valid; now exists scale).
      rewrite (optionsFor_scale config def Hv) in E. injection E as <-.
      destruct (IH (obj_set String.eqb acc name
                      (formatScale fmt
                         (fold_left
                            (fun scale step =>
                               scale_set scale step
                                 (stepColorValue Color_okhsl_to_srgb step
                                    (ColorDefinition.hue def)
                                    (ColorDefinition.minChroma def)
                                    (ColorDefinition.maxChroma def) false))
                            (ColorConfig.steps config) []))))
        as (IH1 & IH2 & IH3).
      split; [|split].
      * intros Hall. inversion Hall; subst. now apply IH1.
      * intros Hex. constructor; [exact Hv | now apply IH2].
      * exact IH3.
    + split; [|split].
      * intros Hall. inversion Hall as [|? ? Hv ?]; subst. simpl in Hv.
        rewrite generateColorScale_valid in E by assumption. discriminate.
      * intros [p Hp]. discriminate.
      * intros msg [= <-]. now apply (generateColorScale_throw_msg _ _ E).
Qed.

(** X15: [generatePalette] returns a palette exactly when every colour of
    the configuration is valid together with the configured steps; with no
    colours it returns the empty palette whatever the steps are, and when
    it throws, the error is a validation error of [generateColorScale]. *)
Theorem generatePalette_outcome (config : ColorConfig.t) (fmt : OutputFormat) :
  ((exists palette : Palette, generatePalette config fmt = Ok palette) <->
   validColors config)
  /\ (ColorConfig.colors config = [] -> generatePalette config fmt = Ok [])
  /\ (forall msg : string,
        generatePalette config fmt = Throw msg ->
        In msg [msg_baseHue; msg_chromaRange; msg_chromaOrder; msg_steps]).
Proof.
  destruct (palette_loop config fmt (ColorConfig.colors config) [])
    as (H1 & H2 & H3).
  cbv zeta in H1, H2, H3. unfold PaletteCli.generatePalette, validColors.
  split; [|split].
  - split; [exact H2|]. intros Hv. rewrite (H1 Hv). eexists; reflexivity.
  - intros ->. reflexivity.
  - exact H3.
Qed.

(** X16: in a palette, every configured colour name is bound to a
    formatted scale that holds, for each configured step and for no other
    key, the formatted colour of the per-step pipeline run with the hue
    shift switched off. *)
Theorem generatePalette_entries
    (config : ColorConfig.t) (fmt : OutputFormat) (palette : Palette) :
  NoDup (map fst (ColorConfig.colors config)) ->
  generatePalette config fmt = Ok palette ->
  forall (name : string) (def : ColorDefinition.t),
    In (name, def) (ColorConfig.colors config) ->
    exists formatted : FormattedScale,
      obj_get String.eqb palette name = Some formatted
      /\ (forall s : R, In s (ColorConfig.steps config) ->
          exists color : triple,
            stepColor Color_okhsl_to_srgb s (ColorDefinition.hue def)
              (ColorDefinition.minChroma def) (ColorDefinition.maxChroma def)
              false = Ok color
            /\ obj_get num_eq formatted s = Some (formatColor fmt color))
      /\ (forall s : R, ~ In s (ColorConfig.steps config) ->
          obj_get num_eq formatted s = None).
Proof.
  intros Hnd Hgen name def Hin.
  destruct (palette_loop config fmt (ColorConfig.colors config) [])
    as (H1 & H2 & _).
  cbv zeta in H1, H2. unfold PaletteCli.generatePalette in Hgen.
  assert (Hall := H2 (ex_intro _ palette Hgen)).
  rewrite (H1 Hall) in Hgen. injection Hgen as <-.
  pose (g := fun d : ColorDefinition.t => fun step =>
               stepColorValue Color_okhsl_to_srgb step
                 (ColorDefinition.hue d) (ColorDefinition.minChroma d)
                 (ColorDefinition.maxChroma d) false).
  pose (G := fun d : ColorDefinition.t =>
               formatScale fmt
                 (fold_left (fun scale step => scale_set scale step (g d step))
                    (ColorConfig.steps config) [])).
  destruct (fold_obj_set_get String.eqb String.eqb_eq G
              (ColorConfig.colors config) Hnd [] name) as [Hget _].
  specialize (Hget def Hin). cbv beta delta [G g] in Hget.
  eexists. split; [exact Hget|].
  assert (Hv : validOptions (optionsFor config def)).
  { unfold validColors in Hall. rewrite Forall_forall in Hall.
    exact (Hall (name, def) Hin). }
  assert (Hnd' := fold_set_NoDup (g def) (ColorConfig.steps config) []
                    (NoDup_nil R)).
  assert (Htot := fold_set_get_total (g def) (ColorConfig.steps config)).
  cbv beta delta [g] in Hnd', Htot.
  split.
  - intros s Hs. eexists. split.
    + destruct Hv as (Hh & H0 & H1' & H2' & Hsteps). simpl in *.
      rewrite Forall_forall in Hsteps. destruct (Hsteps s Hs) as [_ Hr].
      now apply stepColor_valid.
    + rewrite formatScale_get by exact Hnd'. rewrite Htot.
      destruct (in_dec Req_dec_T s (ColorConfig.steps config));
        [reflexivity | contradiction].
  - intros s Hs. rewrite formatScale_get by exact Hnd'. rewrite Htot.
    destruct (in_dec Req_dec_T s (ColorConfig.steps config));
      [contradiction | reflexivity].
Qed.

End Collaborators.

End PaletteBehaviour.

Section PaletteWitnesses.

Import ColorScaleGenerator PaletteCli.

Lemma defaultConfig_valid : validColors defaultConfig.
Proof.
  assert (Hsteps : Forall validStep (ColorConfig.steps defaultConfig)).
  { simpl. repeat (apply Forall_cons; [apply validStep_IZR; lia|]).
    apply Forall_nil. }
  unfold validColors. simpl.
  repeat (apply Forall_cons;
          [unfold validOptions; simpl;
           split; [lra|]; split; [lra|]; split; [lra|]; split; [lra|];
           exact Hsteps|]).
  apply Forall_nil.
Qed.

Lemma defaultConfig_names : NoDup (map fst (ColorConfig.colors defaultConfig)).
Proof.
  simpl. repeat (apply NoDup_cons; [simpl; intuition discriminate|]).
  apply NoDup_nil.
Qed.

Lemma generatePalette_default (fmt : OutputFormat) :
  exists palette : Palette,
    generatePalette grayConverter noHex defaultConfig fmt = Ok palette.
Proof.
  destruct (palette_loop grayConverter noHex defaultConfig fmt
              (ColorConfig.colors defaultConfig) []) as (H1 & _ & _).
  cbv zeta in H1. unfold generatePalette.
  rewrite (H1 defaultConfig_valid). eexists; reflexivity.
Qed.

Lemma generatePalette_outcome_witness :
  (exists palette : Palette,
      generatePalette grayConverter noHex defaultConfig hex = Ok palette)
  /\ generatePalette grayConverter noHex
       {| ColorConfig.steps := [5000]; ColorConfig.colors := [] |} srgb
     = Ok [].
Proof.
  split.
  - apply (generatePalette_outcome grayConverter noHex defaultConfig hex).
    exact defaultConfig_valid.
  - apply (generatePalette_outcome grayConverter noHex). reflexivity.
Defined.

Lemma generatePalette_entries_witness :
  exists (palette : Palette) (formatted : FormattedScale),
    generatePalette grayConverter noHex defaultConfig srgb = Ok palette
    /\ obj_get String.eqb palette "blue"%string = Some formatted
    /\ obj_get num_eq formatted 1 = None.
Proof.
  destruct (generatePalette_default srgb) as [palette Hp].
  destruct (generatePalette_entries grayConverter noHex defaultConfig srgb
              palette defaultConfig_names Hp "blue"%string
              {| ColorDefinition.hue := 256;
                 ColorDefinition.minChroma := 0.4;
                 ColorDefinition.maxChroma := 0.967 |})
    as (formatted & Hget & _ & Hnone).
  - simpl. right. left. reflexivity.
  - exists palette, formatted. split; [exact Hp|]. split; [exact Hget|].
    apply Hnone. simpl. intros H.
    repeat (destruct H as [H | H]; [lra|]). exact H.
Defined.

Lemma Math_round_spec (x : R) : roundedFrom x (Math_round x).
Proof.
  unfold roundedFrom, Math_round. split; [now eexists|].
  destruct (base_Int_part (x + 0.5)) as [H1 H2]. lra.
Qed.

Lemma Math_round_integer (z : Z) : Math_round (IZR z) = IZR z.
Proof.
  unfold Math_round. f_equal. symmetry. apply Int_part_spec. lra.
Qed.

Lemma Math_round_byte (x : R) : 0 <= x <= 255 -> 0 <= Math_round x <= 255.
Proof.
  intros Hx. destruct (Math_round_spec x) as [_ Hr]. unfold Math_round in *.
  set (n := Int_part (x + 0.5)) in *. split.
  - apply (IZR_le 0). assert (H : IZR (-1) < IZR n) by lra.
    apply lt_IZR in H. lia.
  - apply (IZR_le n 255). assert (H : IZR n < IZR 256) by lra.
    apply lt_IZR in H. lia.
Qed.

(** X17: both output formats are computed from the same rounded triple:
    each channel is an integer at most a half away from the converter's
    channel, a channel in [[0, 255]] stays in [[0, 255]], an integer channel
    is kept, and the hex conversion receives the rounded channels divided
    by [255]. *)
Theorem formatColor_rounds
    (Color_srgb_to_hex : triple -> string) (r g b : R) :
  exists r' g' b' : R,
    formatColor Color_srgb_to_hex srgb (r, g, b) = RgbTriple (r', g', b')
    /\ formatColor Color_srgb_to_hex hex (r, g, b)
       = HexString (Color_srgb_to_hex (r' / 255, g' / 255, b' / 255))
    /\ roundedFrom r r' /\ roundedFrom g g' /\ roundedFrom b b'
    /\ (0 <= r <= 255 -> 0 <= r' <= 255)
    /\ (0 <= g <= 255 -> 0 <= g' <= 255)
    /\ (0 <= b <= 255 -> 0 <= b' <= 255)
    /\ (isIntegerNumber r -> r' = r)
    /\ (isIntegerNumber g -> g' = g)
    /\ (isIntegerNumber b -> b' = b).
Proof.
  exists (Math_round r), (Math_round g), (Math_round b).
  split; [reflexivity|]. split; [reflexivity|].
  repeat split; try apply Math_round_spec; try apply Math_round_byte;
    try assumption.
  all: intros [z ->]; apply Math_round_integer.
Qed.

Lemma formatColor_rounds_witness :
  exists r' g' b' : R,
    formatColor noHex srgb (254.5, 0.49, 128) = RgbTriple (r', g', b')
    /\ 0 <= r' <= 255 /\ b' = 128.
Proof.
  destruct (formatColor_rounds noHex 254.5 0.49 128)
    as (r' & g' & b' & H & _ & _ & _ & _ & Hr & _ & _ & _ & _ & Hb).
  exists r', g', b'. split; [exact H|]. split.
  - apply Hr. lra.
  - apply Hb. now exists 128%Z.
Defined.

End PaletteWitnesses.

(** ** The argument loop of the command line *)

Section ArgumentLoop.

Import PaletteCli.

Variable readConfig : string -> result ColorConfig.t.
Variable HELP_TEXT : string.

Local Abbreviation parseArgs := (parseArgs readConfig HELP_TEXT).

Lemma isFlag_false (arg : string) :
  isFlag arg = false ->
  (String.eqb arg "--config" || String.eqb arg "-c" = false)
  /\ (String.eqb arg "--output" || String.eqb arg "-o" = false)
  /\ (String.eqb arg "--format" || String.eqb arg "-f" = false)
  /\ (String.eqb arg "--help" || String.eqb arg "-h" = false).
Proof.
  unfold isFlag. rewrite !orb_false_iff. tauto.
Qed.

Lemma parseArgs_unknown (arg : string) (rest : list string) (st : CliState) :
  isFlag arg = false -> parseArgs (arg :: rest) st = parseArgs rest st.
Proof.
  intros H. destruct (isFlag_false arg H) as (Hc & Ho & Hf & Hh).
  simpl. now rewrite Hc, Ho, Hf, Hh.
Qed.

(** X18: arguments that are none of the eight option names are skipped:
    they change neither the state nor the reading of what follows, so a
    list of only such arguments leaves the state as it was, and a help
    option after them ends the process with code [0] and the help text. *)
Theorem parseArgs_skips_unknown
    (unknown more : list string) (st : CliState) :
  (forall arg : string, In arg unknown -> isFlag arg = false) ->
  parseArgs (unknown ++ more) st = parseArgs more st
  /\ parseArgs unknown st = Parsed st
  /\ parseArgs (unknown ++ "--help"%string :: more) st = Exit 0 HELP_TEXT
  /\ parseArgs (unknown ++ "-h"%string :: more) st = Exit 0 HELP_TEXT.
Proof.
  intros Hall.
  assert (Hskip : forall tail, parseArgs (unknown ++ tail) st = parseArgs tail st).
  { induction unknown as [|arg l IH]; intros tail; [reflexivity|].
    rewrite <- app_comm_cons, parseArgs_unknown by (apply Hall; now left).
    apply IH. intros a Ha. apply Hall. now right. }
  split; [apply Hskip|]. split; [|split].
  - rewrite <- (app_nil_r unknown) at 1. now rewrite Hskip.
  - now rewrite Hskip.
  - now rewrite Hskip.
Qed.

Lemma parseArgs_exit_bounded (n : nat) :
  forall (args : list string) (st : CliState) (code : Z) (text : string),
    (List.length args <= n)%nat ->
    parseArgs args st = Exit code text ->
    (code = 0%Z /\ text = HELP_TEXT
     /\ (In "--help"%string args \/ In "-h"%string args))
    \/ code = 1%Z.
Proof.
  induction n as [|n IH]; intros args st code text Hlen Hexit.
  - destruct args; [discriminate | simpl in Hlen; lia].
  - destruct args as [|arg rest]; [discriminate|].
    simpl in Hlen. simpl in Hexit.
    assert (Hrec : forall tail st',
               (List.length tail <= n)%nat ->
               parseArgs tail st' = Exit code text ->
               (forall a, In a tail -> In a (arg :: rest)) ->
               (code = 0%Z /\ text = HELP_TEXT
                /\ (In "--help"%string (arg :: rest)
                    \/ In "-h"%string (arg :: rest)))
               \/ code = 1%Z).
    { intros tail st' Hl He Hsub.
      destruct (IH tail st' code text Hl He) as [(H0 & Ht & Hin) | H1];
        [left | now right].
      split; [exact H0|]. split; [exact Ht|].
      destruct Hin as [Hin | Hin]; [left | right]; now apply Hsub. }
    destruct (String.eqb arg "--config" || String.eqb arg "-c").
    { destruct rest as [|configPath rest']; [injection Hexit as <- _; now right|].
      destruct (falsy configPath); [injection Hexit as <- _; now right|].
      destruct (readConfig configPath); [|injection Hexit as <- _; now right].
      eapply (Hrec rest'); [simpl in Hlen; lia | exact Hexit |].
      intros x Hx. right. now right. }
    destruct (String.eqb arg "--output" || String.eqb arg "-o").
    { destruct rest as [|path rest']; [injection Hexit as <- _; now right|].
      destruct (falsy path); [injection Hexit as <- _; now right|].
      eapply (Hrec rest'); [simpl in Hlen; lia | exact Hexit |].
      intros x Hx. right. now right. }
    destruct (String.eqb arg "--format" || String.eqb arg "-f").
    { destruct rest as [|formatArg rest']; [injection Hexit as <- _; now right|].
      destruct (falsy formatArg); [injection Hexit as <- _; now right|].
      destruct (String.eqb formatArg "hex").
      { eapply (Hrec rest'); [simpl in Hlen; lia | exact Hexit |].
        intros x Hx. right. now right. }
      destruct (String.eqb formatArg "srgb").
      { eapply (Hrec rest'); [simpl in Hlen; lia | exact Hexit |].
        intros x Hx. right. now right. }
      injection Hexit as <- _; now right. }
    destruct (String.eqb arg "--help" || String.eqb arg "-h") eqn:Eh.
    { injection Hexit as <- <-. left. split; [reflexivity|].
      split; [reflexivity|].
      apply orb_true_iff in Eh. rewrite !String.eqb_eq in Eh.
      destruct Eh as [-> | ->]; [left | right]; now left. }
    eapply (Hrec rest); [lia | exact Hexit |].
    intros x Hx. now right.
Qed.

(** X19: the loop stops the process with code [0] or [1] only; code [0]
    comes with the help text and needs a help option among the arguments,
    every other stop is an error with code [1]. *)
Theorem parseArgs_exit_codes
    (args : list string) (st : CliState) (code : Z) (text : string) :
  parseArgs args st = Exit code text ->
  (code = 0%Z /\ text = HELP_TEXT
   /\ (In "--help"%string args \/ In "-h"%string args))
  \/ code = 1%Z.
Proof. apply (parseArgs_exit_bounded (List.length args)). lia. Qed.

End ArgumentLoop.

Lemma parseArgs_skips_unknown_witness :
  PaletteCli.parseArgs (fun _ => Throw "unreadable") "usage"
    ["palette"%string; "--verbose"%string; "-h"%string; "--format"%string]
    PaletteCli.initialState
  = PaletteCli.Exit 0 "usage".
Proof.
  apply (parseArgs_skips_unknown (fun _ => Throw "unreadable") "usage"
           ["palette"%string; "--verbose"%string] ["--format"%string]
           PaletteCli.initialState).
  intros arg [<- | [<- | []]]; reflexivity.
Defined.

Lemma parseArgs_exit_codes_witness :
  exists (code : Z) (text : string),
    PaletteCli.parseArgs (fun _ => Throw "unreadable") "usage"
      ["-o"%string; "out.json"%string; "--help"%string]
      PaletteCli.initialState
    = PaletteCli.Exit code text
    /\ ((code = 0%Z /\ text = "usage"%string
         /\ (In "--help"%string
               ["-o"%string; "out.json"%string; "--help"%string]
             \/ In "-h"%string
                  ["-o"%string; "out.json"%string; "--help"%string]))
        \/ code = 1%Z).
Proof.
  exists 0%Z, "usage"%string. split; [reflexivity|].
  apply (parseArgs_exit_codes (fun _ => Throw "unreadable") "usage"
           ["-o"%string; "out.json"%string; "--help"%string]
           PaletteCli.initialState 0 "usage").
  reflexivity.
Defined.

(** ** Hex strings of the comparison report *)

Section HexStrings.

Import CompareColors.

Lemma toLowerCase_char_idem (c : ascii) :
  toLowerCase_char (toLowerCase_char c) = toLowerCase_char c.
Proof. destruct c as [[] [] [] [] [] [] [] []]; reflexivity. Qed.

Lemma toLowerCase_char_hash (c : ascii) :
  Ascii.eqb (toLowerCase_char c) "#" = Ascii.eqb c "#".
Proof. destruct c as [[] [] [] [] [] [] [] []]; reflexivity. Qed.

Lemma toLowerCase_idem (s : string) :
  toLowerCase (toLowerCase s) = toLowerCase s.
Proof.
  induction s as [|c s IH]; simpl; [reflexivity|].
  now rewrite toLowerCase_char_idem, IH.
Qed.

Lemma toLowerCase_hashCount (s : string) :
  hashCount (toLowerCase s) = hashCount s.
Proof.
  induction s as [|c s IH]; simpl; [reflexivity|].
  now rewrite toLowerCase_char_hash, IH.
Qed.

Lemma toLowerCase_removeFirstHash (s : string) :
  toLowerCase (removeFirstHash s) = removeFirstHash (toLowerCase s).
Proof.
  induction s as [|c s IH]; simpl; [reflexivity|].
  rewrite toLowerCase_char_hash.
  destruct (Ascii.eqb c "#"); simpl; [reflexivity | now rewrite IH].
Qed.

Lemma removeFirstHash_none (s : string) :
  hashCount s = 0%nat -> removeFirstHash s = s.
Proof.
  induction s as [|c s IH]; simpl; [reflexivity|].
  destruct (Ascii.eqb c "#"); [discriminate|].
  intros H. now rewrite IH.
Qed.

Lemma removeFirstHash_count (s : string) :
  hashCount (removeFirstHash s) = pred (hashCount s).
Proof.
  induction s as [|c s IH]; simpl; [reflexivity|].
  destruct (Ascii.eqb c "#") eqn:E; simpl; [reflexivity|].
  now rewrite E.
Qed.

(** X20: [normalizeHex] identifies a three-digit hex colour with its
    six-digit expansion, whatever the three characters are, and it does not
    see the case of letters: an input and its lower-case form normalise to
    the same string. *)
Theorem normalizeHex_abbreviation (a b c : ascii) (hex : string) :
  normalizeHex (String "#" (String a (String b (String c EmptyString))))
  = normalizeHex
      (String "#" (String a (String a (String b (String b
         (String c (String c EmptyString)))))))
  /\ String.length
       (normalizeHex (String "#" (String a (String b (String c EmptyString)))))
     = 6%nat
  /\ normalizeHex (toLowerCase hex) = normalizeHex hex.
Proof.
  split; [reflexivity|]. split; [reflexivity|].
  unfold normalizeHex. now rewrite toLowerCase_idem.
Qed.

Lemma cleaned3_expanded (s : string) :
  String.length s = 3%nat -> hashCount s = 0%nat -> toLowerCase s = s ->
  exists e : string,
    (match s with
     | String c0 (String c1 (String c2 _)) =>
         String c0 (String c0 (String c1 (String c1 (String c2
           (String c2 EmptyString)))))
     | _ => s
     end) = e
    /\ String.length e = 6%nat /\ hashCount e = 0%nat /\ toLowerCase e = e.
Proof.
  destruct s as [|c0 [|c1 [|c2 [|c3 s]]]]; simpl; try discriminate.
  intros _ Hh Hl. eexists. split; [reflexivity|]. split; [reflexivity|].
  injection Hl as H0 H1 H2.
  destruct (Ascii.eqb c0 "#") eqn:E0; [discriminate|].
  destruct (Ascii.eqb c1 "#") eqn:E1; [discriminate|].
  destruct (Ascii.eqb c2 "#") eqn:E2; [discriminate|].
  split.
  - simpl. now rewrite E0, E1, E2.
  - simpl. now rewrite H0, H1, H2.
Qed.

(** X21: on a string with at most one [#], [normalizeHex] is idempotent;
    with two it is not, since only the first [#] is removed. *)
Theorem normalizeHex_idempotent (hex : string) :
  (hashCount hex <= 1)%nat ->
  normalizeHex (normalizeHex hex) = normalizeHex hex
  /\ normalizeHex (normalizeHex "##abc") <> normalizeHex "##abc".
Proof.
  intros Hcount. split; [|discriminate].
  unfold normalizeHex at 2 3. cbv zeta.
  set (cleaned := removeFirstHash (toLowerCase hex)).
  assert (Hh : hashCount cleaned = 0%nat).
  { unfold cleaned. rewrite removeFirstHash_count, toLowerCase_hashCount. lia. }
  assert (Hl : toLowerCase cleaned = cleaned).
  { unfold cleaned.
    now rewrite toLowerCase_removeFirstHash, toLowerCase_idem. }
  destruct (Nat.eqb (String.length cleaned) 3) eqn:E.
  - apply Nat.eqb_eq in E.
    destruct (cleaned3_expanded cleaned E Hh Hl) as (e & -> & He6 & Heh & Hel).
    unfold normalizeHex. rewrite Hel, (removeFirstHash_none e Heh), He6.
    reflexivity.
  - unfold normalizeHex. rewrite Hl, (removeFirstHash_none cleaned Hh), E.
    reflexivity.
Qed.

Lemma normalizeHex_idempotent_witness :
  normalizeHex (normalizeHex "#F8F") = normalizeHex "#F8F".
Proof. apply (normalizeHex_idempotent "#F8F"). simpl. lia. Defined.

End HexStrings.
